(** * matadata: the forensic analysis engine, embedded and verified

    A shallow embedding of the analysis core of the repository:
    - [src/utils/common.ts]: [getEntropy], [extractStrings];
    - the parsers module: [parseImage], [parsePng], [parsePdf],
      [parseDocx], [parseFile].

    JavaScript values are modelled by [JsValue]; strings by Rocq strings
    (sequences of code units below 256); a [Uint8Array] by [list byte];
    JavaScript integers (offsets, 32-bit bit-operation results) by [Z]
    with the 32-bit wrap-around written out.  The third-party libraries
    the parsers call (ExifReader, pdf-lib, JSZip, the DOM parser) and the
    built-in date parser are interfaces (type classes): every theorem
    holds for each implementation of them. *)

From Stdlib Require Import ZArith List String Ascii Lia Bool Reals Lra.
From Stdlib.Strings Require Import Byte.
From stdpp Require Import base list strings gmap pretty.

Set Warnings "-register-all".
Local Open Scope Z_scope.

(** ** JavaScript values and built-in operations *)

Module JS.

(** A thrown [Error] is its message; [Exc A] is a call that returns an
    [A] or throws. *)
Definition Exc (A : Type) : Type := (string + A)%type.

Inductive JsValue : Type :=
  | JUndefined
  | JNull
  | JBool (b : bool)
  | JNum (z : Z)
  | JStr (s : string)
  | JDate (ms : option Z)
  | JObj (fields : gmap string JsValue).

(** [v.k], and [v?.k] on a missing [v]: a missing property is [undefined]. *)
Definition js_get (v : JsValue) (k : string) : JsValue :=
  match v with
  | JObj fields => default JUndefined (fields !! k)
  | _ => JUndefined
  end.

(** ToBoolean. *)
Definition truthy (v : JsValue) : bool :=
  match v with
  | JUndefined | JNull => false
  | JBool b => b
  | JNum z => negb (z =? 0)
  | JStr s => negb (String.eqb s "")
  | JDate _ | JObj _ => true
  end.

(** [a || b] and [a && b] on values. *)
Definition js_or (a b : JsValue) : JsValue := if truthy a then a else b.
Definition js_and (a b : JsValue) : JsValue := if truthy a then b else a.

(** The built-ins whose result the engine takes as given: the date
    parser behind [new Date(string)] ([None] is an invalid date, else the
    time value in milliseconds), the conversion of a string to a number
    ([None] is NaN) and the text form of a date. *)
Class Builtins := {
  Date_parse : string -> option Z;
  StringToNumber : string -> option Z;
  Date_toString : option Z -> string
}.

Section WithBuiltins.
Context {builtins : Builtins}.

(** ToString, as a template literal applies it. *)
Definition js_toString (v : JsValue) : string :=
  match v with
  | JUndefined => "undefined"
  | JNull => "null"
  | JBool true => "true"
  | JBool false => "false"
  | JNum z => pretty z
  | JStr s => s
  | JDate d => Date_toString d
  | JObj _ => "[object Object]"
  end.

(** ToNumber; [None] is NaN. *)
Definition js_toNumber (v : JsValue) : option Z :=
  match v with
  | JUndefined => None
  | JNull => Some 0
  | JBool b => Some (if b then 1 else 0)
  | JNum z => Some z
  | JStr s => StringToNumber s
  | JDate d => d
  | JObj _ => StringToNumber "[object Object]"
  end.

(** [a > b]: two strings compare by code units, anything else as
    numbers, and a comparison with NaN is false. *)
Definition js_gt (a b : JsValue) : bool :=
  match a, b with
  | JStr x, JStr y => String.ltb y x
  | JStr x, JObj _ => String.ltb "[object Object]" x
  | JObj _, JStr y => String.ltb y "[object Object]"
  | JObj _, JObj _ => false
  | _, _ =>
      match js_toNumber a, js_toNumber b with
      | Some x, Some y => y <? x
      | _, _ => false
      end
  end.

(** [new Date(v)]: the time value, [None] for an invalid date. *)
Definition Date_new (v : JsValue) : option Z :=
  match v with
  | JStr s => Date_parse s
  | JDate d => d
  | JObj _ => Date_parse "[object Object]"
  | _ => js_toNumber v
  end.

(** [d1 > d2] on two [Date] objects. *)
Definition Date_gt (d1 d2 : option Z) : bool :=
  match d1, d2 with
  | Some x, Some y => y <? x
  | _, _ => false
  end.

End WithBuiltins.

(** *** Strings *)

(** [s.charCodeAt(i)] of the character [a] at [i]. *)
Definition char_code (a : ascii) : Z := Z.of_N (N_of_ascii a).

(** [String.fromCharCode(c)] for one code unit. *)
Definition fromCharCode1 (c : Z) : string :=
  String (ascii_of_N (Z.to_N (c mod 65536))) EmptyString.

(** [String.fromCharCode(c1, ..., cn)]; an [undefined] argument converts
    to code unit 0. *)
Definition String_fromCharCode (cs : list (option Z)) : string :=
  foldr (fun c s => fromCharCode1 (default 0 c) +:+ s) "" cs.

Definition lower_code (c : N) : N :=
  if ((65 <=? c) && (c <=? 90))%N then (c + 32)%N
  else if ((192 <=? c) && (c <=? 222) && negb (c =? 215))%N then (c + 32)%N
  else c.

(** [s.toLowerCase()]. *)
Fixpoint toLowerCase (s : string) : string :=
  match s with
  | EmptyString => EmptyString
  | String a s' => String (ascii_of_N (lower_code (N_of_ascii a))) (toLowerCase s')
  end.

(** [s.startsWith(p)]. *)
Fixpoint startsWith (s p : string) : bool :=
  match p, s with
  | EmptyString, _ => true
  | String _ _, EmptyString => false
  | String b p', String a s' => Ascii.eqb a b && startsWith s' p'
  end.

(** [s.includes(sub)]. *)
Fixpoint includes (s sub : string) : bool :=
  startsWith s sub ||
  match s with
  | EmptyString => false
  | String _ s' => includes s' sub
  end.

(** [s.endsWith(suffix)]. *)
Definition endsWith (s suffix : string) : bool :=
  let n := String.length s in
  let k := String.length suffix in
  (k <=? n)%nat && String.eqb (String.substring (n - k) k s) suffix.

(** *** 32-bit integer operations *)

(** ToInt32: wrap into [-2^31, 2^31). *)
Definition to_int32 (z : Z) : Z := (z + 2147483648) mod 4294967296 - 2147483648.

(** [a << n] for [0 <= n < 32]; an [undefined] operand is 0. *)
Definition js_shl (a : option Z) (n : Z) : Z :=
  to_int32 (Z.shiftl (to_int32 (default 0 a)) n).

(** [a | b]. *)
Definition js_bor (a b : Z) : Z := to_int32 (Z.lor (to_int32 a) (to_int32 b)).

(** *** Typed arrays *)

Definition byte_code (b : byte) : Z := Z.of_N (Byte.to_N b).

(** [data[i]] on a [Uint8Array]: [undefined] out of range, also for a
    negative index. *)
Definition data_at (data : list byte) (i : Z) : option Z :=
  if i <? 0 then None else byte_code <$> (data !! Z.to_nat i).

(** [data.length]. *)
Definition data_length (data : list byte) : Z := Z.of_nat (length data).

(** [buffer.slice(begin, end)] on an [ArrayBuffer]: a negative index
    counts from the end, and both are clamped to the buffer. *)
Definition ArrayBuffer_slice (data : list byte) (begin final : Z) : list byte :=
  let len := data_length data in
  let first := if begin <? 0 then Z.max (len + begin) 0 else Z.min begin len in
  let last := if final <? 0 then Z.max (len + final) 0 else Z.min final len in
  let newLen := Z.max (last - first) 0 in
  take (Z.to_nat newLen) (drop (Z.to_nat first) data).

(** *** Numbers as text *)

(** The digit of [d] in [0, 16), lower case. *)
Definition hex_digit (d : Z) : ascii :=
  if d <? 10 then ascii_of_N (Z.to_N (48 + d)) else ascii_of_N (Z.to_N (87 + d)).

(** The characters of [0123456789abcdef]. *)
Definition is_hex_digit (a : ascii) : bool :=
  let c := char_code a in
  ((48 <=? c) && (c <=? 57)) || ((97 <=? c) && (c <=? 102)).

Fixpoint to_radix16 (fuel : nat) (n : Z) : string :=
  match fuel with
  | O => EmptyString
  | S fuel' =>
      if n <? 16 then String (hex_digit n) EmptyString
      else to_radix16 fuel' (n / 16) +:+ String (hex_digit (n mod 16)) EmptyString
  end.

(** [n.toString(16)] for an integer [n]. *)
Definition Number_toString16 (n : Z) : string :=
  if n <? 0 then "-" +:+ to_radix16 (S (Z.to_nat (Z.log2 (- n)))) (- n)
  else to_radix16 (S (Z.to_nat (Z.log2 n))) n.

(** [s.padStart(targetLength, padString)]: [padString] repeated and cut
    to the missing length, in front of [s]. *)
Definition padStart (s : string) (targetLength : Z) (padString : string) : string :=
  let len := Z.of_nat (String.length s) in
  if (targetLength <=? len) || String.eqb padString "" then s
  else
    let fill := Z.to_nat (targetLength - len) in
    string_of_list_ascii
      (take fill (concat (replicate fill (list_ascii_of_string padString))))
    +:+ s.

(** [list.join('')] *)
Definition join_strings (parts : list string) : string :=
  foldr String.append EmptyString parts.

(** *** Calls that return or throw, in sequence *)

#[export] Instance Exc_ret : MRet Exc := fun A (a : A) => inr a.

#[export] Instance Exc_bind : MBind Exc :=
  fun A B (k : A -> Exc B) (m : Exc A) =>
    match m with
    | inr a => k a
    | inl message => inl message
    end.

End JS.

Import JS.

(** ** [src/utils/common.ts] *)

Module Common.

(** The arithmetic [getEntropy] does on JavaScript numbers: an integer
    count taken as a number, division, multiplication, subtraction and
    [Math.log2]. *)
Class JsNumber (num : Type) := {
  of_count : nat -> num;
  num_div : num -> num -> num;
  num_mul : num -> num -> num;
  num_sub : num -> num -> num;
  Math_log2 : num -> num
}.

Section Entropy.
Context {num : Type} {number : JsNumber num}.

(** [frequencies[data[i]]++] *)
Definition count_byte (frequencies : list nat) (b : byte) : list nat :=
  alter S (Z.to_nat (byte_code b)) frequencies.

(** The first loop of [getEntropy], from [new Array(256).fill(0)]. *)
Definition histogram (data : list byte) : list nat :=
  foldl count_byte (replicate 256 0%nat) data.

(** One turn of the second loop. *)
Definition entropy_step (len : nat) (entropy : num) (frequency : nat) : num :=
  if (0 <? frequency)%nat then
    let p := num_div (of_count frequency) (of_count len) in
    num_sub entropy (num_mul p (Math_log2 p))
  else entropy.

Definition getEntropy (buffer : list byte) : num :=
  let frequencies := histogram buffer in
  let len := length buffer in
  foldl (entropy_step len) (of_count 0) frequencies.

End Entropy.

(** The test of [extractStrings] on a char code: printable ASCII
    32-126, tab, newline, carriage return. *)
Definition printable (charCode : Z) : bool :=
  ((32 <=? charCode) && (charCode <=? 126))
  || (charCode =? 9) || (charCode =? 10) || (charCode =? 13).

(** The loop state of [extractStrings]. *)
Record ScanState := {
  strings : list string;
  currentString : string
}.

(** [if (currentString.length >= minLength) strings.push(currentString)] *)
Definition flush (minLength : Z) (st : ScanState) : list string :=
  if minLength <=? Z.of_nat (String.length (currentString st))
  then strings st ++ [currentString st]
  else strings st.

(** One turn of the loop of [extractStrings]. *)
Definition scan_byte (minLength : Z) (st : ScanState) (b : byte) : ScanState :=
  let charCode := byte_code b in
  if printable charCode then
    {| strings := strings st;
       currentString := currentString st +:+ fromCharCode1 charCode |}
  else
    {| strings := flush minLength st; currentString := "" |}.

Definition extractStrings (buffer : list byte) (minLength : Z) : list string :=
  flush minLength
    (foldl (scan_byte minLength) {| strings := []; currentString := "" |} buffer).

(** [extractStrings(buffer)]: [minLength] defaults to 4. *)
Definition extractStrings_default (buffer : list byte) : list string :=
  extractStrings buffer 4.

(** [bufferToHex]: every byte as two hexadecimal digits. *)
Definition bufferToHex (buffer : list byte) : string :=
  join_strings
    (map (fun b => padStart (Number_toString16 (byte_code b)) 2 "0") buffer).

End Common.

Import Common.

(** ** The string extractor as the specification words it

    The maximal runs of printable bytes of a buffer, in buffer order:
    the buffer cut at every non-printable byte. *)

Module StringExtractorSpec.

(** [pre] put in front of the first run. *)
Definition extend (pre : list byte) (rs : list (list byte)) : list (list byte) :=
  match rs with
  | r :: rs' => (pre ++ r) :: rs'
  | [] => [pre]
  end.

Fixpoint runs (bytes : list byte) : list (list byte) :=
  match bytes with
  | [] => [[]]
  | b :: rest =>
      if printable (byte_code b) then extend [b] (runs rest)
      else [] :: runs rest
  end.

(** The bytes at which the buffer is cut. *)
Definition separators (bytes : list byte) : list byte :=
  List.filter (fun b => negb (printable (byte_code b))) bytes.

(** The runs put back together, a separator after each run but the last. *)
Fixpoint join (rs : list (list byte)) (seps : list byte) : list byte :=
  match rs, seps with
  | r :: rs', s :: seps' => r ++ s :: join rs' seps'
  | r :: _, [] => r
  | [], _ => []
  end.

(** A run of bytes as a string, byte by byte. *)
Definition run_string (r : list byte) : string := string_of_list_byte r.

Definition long_enough (minLength : Z) (r : list byte) : bool :=
  minLength <=? Z.of_nat (length r).

(** The runs of length at least [minLength], each as a string. *)
Definition extractPrintableStrings (bytes : list byte) (minLength : Z) : list string :=
  map run_string (List.filter (long_enough minLength) (runs bytes)).

(** A neighbour of a run: the end of the buffer or a non-printable byte. *)
Definition run_boundary (neighbour : option byte) : Prop :=
  match neighbour with
  | None => True
  | Some b => printable (byte_code b) = false
  end.

(** [r] is a maximal run of printable bytes of [buffer], between [pre]
    and [post]. *)
Definition maximal_run (buffer pre r post : list byte) : Prop :=
  buffer = pre ++ r ++ post
  /\ Forall (fun b => printable (byte_code b) = true) r
  /\ run_boundary (last pre)
  /\ run_boundary (head post).

End StringExtractorSpec.

(** Bytes of an ASCII text, for writing buffers down. *)
Definition bytes_of (s : string) : list byte := list_byte_of_string s.

(** ** The parsers module *)

Module Parsers.

(** A chunk entry of [MetadataResult.chunks]. *)
Record Chunk := {
  name : string;
  size : Z;
  offset : Z
}.

(** [MetadataResult]; [chunks] and [xmlDump] are optional. *)
Record MetadataResult := {
  fileType : string;
  metadata : gmap string JsValue;
  warnings : list string;
  chunks : option (list Chunk);
  xmlDump : option string
}.

(** A browser [File]: declared MIME type, name and content. *)
Record File := {
  file_type : string;
  file_name : string;
  file_arrayBuffer : list byte
}.

(** *** The libraries the parsers call *)

(** ExifReader: [ExifReader.load(file, {expanded: true})]. *)
Class ExifLib := {
  ExifReader_load : File -> Exc (gmap string JsValue)
}.

(** pdf-lib: [PDFDocument.load] and the getters of the document. *)
Class PdfLib := {
  PDFDocument : Type;
  PDFDocument_load : list byte -> Exc PDFDocument;
  getPageCount : PDFDocument -> Exc JsValue;
  getTitle : PDFDocument -> Exc JsValue;
  getAuthor : PDFDocument -> Exc JsValue;
  getSubject : PDFDocument -> Exc JsValue;
  getKeywords : PDFDocument -> Exc JsValue;
  getCreator : PDFDocument -> Exc JsValue;
  getProducer : PDFDocument -> Exc JsValue;
  getCreationDate : PDFDocument -> Exc JsValue;
  getModificationDate : PDFDocument -> Exc JsValue
}.

(** JSZip: [JSZip.loadAsync], [zip.file(path)] ([None] is [null]) and
    [entry.async('text')]. *)
Class ZipLib := {
  JSZip : Type;
  ZipObject : Type;
  JSZip_loadAsync : File -> Exc JSZip;
  JSZip_file : JSZip -> string -> option ZipObject;
  ZipObject_async_text : ZipObject -> Exc string
}.

(** The DOM: [DOMParser.parseFromString(text, 'text/xml')] (which
    returns a document for every text), [getElementsByTagName] and
    [textContent]. *)
Class DomLib := {
  XMLDocument : Type;
  Element : Type;
  DOMParser_parseFromString : string -> XMLDocument;
  getElementsByTagName : XMLDocument -> string -> list Element;
  textContent : Element -> string
}.

(** *** [try] blocks

    A [try] body runs over the variables it assigns ([St]) and either
    finishes or throws; what it assigned before the throw stays. *)

Definition Try (St A : Type) : Type := St -> St * Exc A.

#[export] Instance Try_ret {St} : MRet (Try St) :=
  fun A (a : A) st => (st, inr a).

#[export] Instance Try_bind {St} : MBind (Try St) :=
  fun A B (k : A -> Try St B) (m : Try St A) st =>
    match m st with
    | (st', inr a) => k a st'
    | (st', inl e) => (st', inl e)
    end.

(** A library call inside a [try] body. *)
Definition call {St A} (r : Exc A) : Try St A := fun st => (st, r).

(** An assignment inside a [try] body. *)
Definition assign {St} (f : St -> St) : Try St unit := fun st => (f st, inr tt).

(** Reading the variables. *)
Definition vars {St} : Try St St := fun st => (st, inr st).

(** [if (c) { body }] *)
Definition when {St} (c : bool) (body : Try St unit) : Try St unit :=
  if c then body else mret tt.

(** [try { body } catch (e) { handler }], [e.message] given to the
    handler. *)
Definition try_catch {St} (body : Try St unit) (handler : string -> St -> St)
    (st : St) : St :=
  match body st with
  | (st', inr _) => st'
  | (st', inl message) => handler message st'
  end.

(** The variables the parsers assign. *)
Record Vars := {
  v_metadata : gmap string JsValue;
  v_warnings : list string;
  v_xmlDump : string
}.

Definition init_vars : Vars :=
  {| v_metadata := ∅; v_warnings := []; v_xmlDump := "" |}.

(** [warnings.push(w)] *)
Definition push_warning (w : string) (st : Vars) : Vars :=
  {| v_metadata := v_metadata st;
     v_warnings := v_warnings st ++ [w];
     v_xmlDump := v_xmlDump st |}.

Definition set_metadata (m : gmap string JsValue) (st : Vars) : Vars :=
  {| v_metadata := m; v_warnings := v_warnings st; v_xmlDump := v_xmlDump st |}.

(** [metadata.key = value] *)
Definition set_metadata_key (key : string) (value : JsValue) (st : Vars) : Vars :=
  set_metadata (<[key := value]> (v_metadata st)) st.

(** [xmlDump += text] *)
Definition append_xmlDump (text : string) (st : Vars) : Vars :=
  {| v_metadata := v_metadata st;
     v_warnings := v_warnings st;
     v_xmlDump := v_xmlDump st +:+ text |}.

Definition newline : string := String (ascii_of_nat 10) EmptyString.

(** The warnings, as the source writes them. *)
Definition EXIF_ERROR (message : string) : string := "Erro ao ler EXIF: " +:+ message.
Definition SOFTWARE_DETECTED (tool : string) : string := "Software detectado: " +:+ tool.
Definition IMAGE_TEMPORAL_WARNING : string :=
  "Inconsistência Temporal: Data de Criação posterior à Data de Modificação".
Definition PNG_SIGNATURE_WARNING : string := "Assinatura PNG inválida".
Definition PDF_JAVASCRIPT_WARNING : string :=
  "JavaScript embarcado detectado (potencialmente malicioso)".
Definition PDF_AUTO_ACTION_WARNING : string :=
  "Ações automáticas detectadas (/OpenAction ou /AA)".
Definition PDF_ERROR (message : string) : string := "Erro ao analisar PDF: " +:+ message.
Definition DOCX_TEMPORAL_WARNING : string :=
  "Inconsistência Temporal: Criado depois de Modificado".
Definition DOCX_ERROR (message : string) : string :=
  "Erro ao analisar DOCX (ZIP): " +:+ message.

(** The MIME type of a DOCX file. *)
Definition DOCX_MIME : string :=
  "application/vnd.openxmlformats-officedocument.wordprocessingml.document".

Section WithLibraries.
Context {builtins : Builtins} {exifLib : ExifLib} {pdfLib : PdfLib}
        {zipLib : ZipLib} {domLib : DomLib}.

(** *** JPEG / generic image parser *)

Definition parseImage (file : File) : MetadataResult :=
  (* try { tags = await ExifReader.load(...) } catch (e) { warnings.push(...) } *)
  let st :=
    try_catch
      (tags ← call (ExifReader_load file);
       assign (set_metadata tags))
      (fun message => push_warning (EXIF_ERROR message))
      init_vars in
  let tags := JObj (v_metadata st) in
  let exif := js_get tags "exif" in
  let xmp := js_get tags "xmp" in
  (* Check for software modification *)
  let st :=
    if truthy (js_or (js_get exif "Software") (js_get xmp "CreatorTool")) then
      push_warning
        (SOFTWARE_DETECTED
           (js_toString
              (js_or (js_get (js_get exif "Software") "description")
                     (js_get (js_get xmp "CreatorTool") "description"))))
        st
    else st in
  (* Check date consistency *)
  let created := js_get (js_get exif "DateTimeOriginal") "description" in
  let modified := js_get (js_get exif "DateTime") "description" in
  let st :=
    if truthy created && truthy modified && js_gt created modified then
      push_warning IMAGE_TEMPORAL_WARNING st
    else st in
  {| fileType := "IMAGE";
     metadata := v_metadata st;
     warnings := v_warnings st;
     chunks := None;
     xmlDump := None |}.

(** *** PNG parser *)

(** [data[i] !== n] *)
Definition differs (v : option Z) (n : Z) : bool :=
  match v with
  | Some x => negb (x =? n)
  | None => true
  end.

(** The magic number check. *)
Definition bad_signature (data : list byte) : bool :=
  differs (data_at data 0) 137 (* 0x89 *)
  || differs (data_at data 1) 80 (* 0x50 *)
  || differs (data_at data 2) 78 (* 0x4E *)
  || differs (data_at data 3) 71 (* 0x47 *).

(** [(data[offset] << 24) | (data[offset + 1] << 16) |
     (data[offset + 2] << 8) | data[offset + 3]] *)
Definition chunk_length (data : list byte) (offset : Z) : Z :=
  js_bor
    (js_bor
       (js_bor (js_shl (data_at data offset) 24)
               (js_shl (data_at data (offset + 1)) 16))
       (js_shl (data_at data (offset + 2)) 8))
    (default 0 (data_at data (offset + 3))).

(** [String.fromCharCode(data[offset + 4], ..., data[offset + 7])] *)
Definition chunk_type (data : list byte) (offset : Z) : string :=
  String_fromCharCode
    [data_at data (offset + 4); data_at data (offset + 5);
     data_at data (offset + 6); data_at data (offset + 7)].

(** The variables of the chunk loop. *)
Record Walk := {
  w_chunks : list Chunk;
  w_offset : Z
}.

(** One turn of [while (offset < data.length)]: [None] when the loop is
    left (by its condition or by [break]), else the variables after the
    turn. *)
Definition walk_step (data : list byte) (w : Walk) : option Walk :=
  let offset := w_offset w in
  if offset <? data_length data then
    if offset + 8 >? data_length data then None
    else
      let length := chunk_length data offset in
      let type := chunk_type data offset in
      Some {| w_chunks := w_chunks w ++ [{| name := type; size := length; offset := offset |}];
              (* Move to next chunk: length + type(4) + data(length) + crc(4) *)
              w_offset := offset + (4 + 4 + length + 4) |}
  else None.

(** The loop, run for at most [fuel] turns: [None] when it has not been
    left by then. *)
Fixpoint walk (fuel : nat) (data : list byte) (w : Walk) : option Walk :=
  match walk_step data w with
  | None => Some w
  | Some w' =>
      match fuel with
      | O => None
      | S fuel' => walk fuel' data w'
      end
  end.

(** [parsePng], its loop run for at most [fuel] turns. *)
Definition parsePng (fuel : nat) (file : File) : option MetadataResult :=
  let data := file_arrayBuffer file in
  let warnings0 := if bad_signature data then [PNG_SIGNATURE_WARNING] else [] in
  w ← walk fuel data {| w_chunks := []; w_offset := 8 |};
  (* Use ExifReader for standard metadata inside chunks *)
  let imageResult := parseImage file in
  Some {| fileType := "PNG";
          metadata := metadata imageResult;
          warnings := warnings0 ++ warnings imageResult;
          chunks := Some (w_chunks w);
          xmlDump := None |}.

(** *** PDF parser *)

Definition mentions_script (s : string) : bool :=
  includes s "/JavaScript" || includes s "/JS".

Definition mentions_auto_action (s : string) : bool :=
  includes s "/OpenAction" || includes s "/AA".

(** The [try] body of [parsePdf]. *)
Definition parsePdf_body (arrayBuffer : list byte) : Try Vars unit :=
  pdfDoc ← call (PDFDocument_load arrayBuffer);
  pageCount ← call (getPageCount pdfDoc);
  title ← call (getTitle pdfDoc);
  author ← call (getAuthor pdfDoc);
  subject ← call (getSubject pdfDoc);
  keywords ← call (getKeywords pdfDoc);
  creator ← call (getCreator pdfDoc);
  producer ← call (getProducer pdfDoc);
  creationDate ← call (getCreationDate pdfDoc);
  modificationDate ← call (getModificationDate pdfDoc);
  assign (set_metadata (list_to_map
    [("pageCount", pageCount); ("title", title); ("author", author);
     ("subject", subject); ("keywords", keywords); ("creator", creator);
     ("producer", producer); ("creationDate", creationDate);
     ("modificationDate", modificationDate)]));;
  (* Check for JS *)
  let strings := extractStrings_default arrayBuffer in
  when (existsb mentions_script strings)
    (assign (push_warning PDF_JAVASCRIPT_WARNING));;
  when (existsb mentions_auto_action strings)
    (assign (push_warning PDF_AUTO_ACTION_WARNING)).

Definition parsePdf (file : File) : MetadataResult :=
  let arrayBuffer := file_arrayBuffer file in
  let st :=
    try_catch (parsePdf_body arrayBuffer)
      (fun message => push_warning (PDF_ERROR message))
      init_vars in
  {| fileType := "PDF";
     metadata := v_metadata st;
     warnings := v_warnings st;
     chunks := None;
     xmlDump := Some (v_xmlDump st) |}.

(** *** DOCX parser *)

(** The local function [extract] of [parseDocx]: the text of the first
    element with the tag, or [null]. *)
Definition extract (xmlDoc : XMLDocument) (tag : string) : JsValue :=
  match getElementsByTagName xmlDoc tag with
  | el :: _ => JStr (textContent el)
  | [] => JNull
  end.

(** [xmlDump += '--- path ---\n' + text + '\n\n'] *)
Definition dump_entry (path text : string) : Vars -> Vars :=
  append_xmlDump ("--- " +:+ path +:+ " ---" +:+ newline +:+ text +:+ newline +:+ newline).

(** The object assigned to [metadata.core]. *)
Definition core_properties (xmlDoc : XMLDocument) : gmap string JsValue :=
  list_to_map
    [("creator", extract xmlDoc "dc:creator");
     ("lastModifiedBy", extract xmlDoc "cp:lastModifiedBy");
     ("revision", extract xmlDoc "cp:revision");
     ("created", extract xmlDoc "dcterms:created");
     ("modified", extract xmlDoc "dcterms:modified");
     ("title", extract xmlDoc "dc:title");
     ("subject", extract xmlDoc "dc:subject");
     ("description", extract xmlDoc "dc:description")].

(** The object assigned to [metadata.app]. *)
Definition app_properties (xmlDoc : XMLDocument) : gmap string JsValue :=
  list_to_map
    [("template", extract xmlDoc "Template");
     ("totalTime", extract xmlDoc "TotalTime");
     ("pages", extract xmlDoc "Pages");
     ("words", extract xmlDoc "Words");
     ("application", extract xmlDoc "Application");
     ("company", extract xmlDoc "Company");
     ("docSecurity", extract xmlDoc "DocSecurity")].

(** Core Properties *)
Definition docx_core (zip : JSZip) : Try Vars unit :=
  match JSZip_file zip "docProps/core.xml" with
  | Some coreFile =>
      text ← call (ZipObject_async_text coreFile);
      assign (dump_entry "docProps/core.xml" text);;
      let xmlDoc := DOMParser_parseFromString text in
      assign (set_metadata_key "core" (JObj (core_properties xmlDoc)));;
      st ← vars;
      let core := js_get (JObj (v_metadata st)) "core" in
      when (truthy (js_get core "created") && truthy (js_get core "modified"))
        (when (Date_gt (Date_new (js_get core "created"))
                       (Date_new (js_get core "modified")))
           (assign (push_warning DOCX_TEMPORAL_WARNING)))
  | None => mret tt
  end.

(** App Properties *)
Definition docx_app (zip : JSZip) : Try Vars unit :=
  match JSZip_file zip "docProps/app.xml" with
  | Some appFile =>
      text ← call (ZipObject_async_text appFile);
      assign (dump_entry "docProps/app.xml" text);;
      let xmlDoc := DOMParser_parseFromString text in
      assign (set_metadata_key "app" (JObj (app_properties xmlDoc)))
  | None => mret tt
  end.

(** Custom Properties *)
Definition docx_custom (zip : JSZip) : Try Vars unit :=
  match JSZip_file zip "docProps/custom.xml" with
  | Some customFile =>
      text ← call (ZipObject_async_text customFile);
      assign (dump_entry "docProps/custom.xml" text)
  | None => mret tt
  end.

(** The [try] body of [parseDocx]. *)
Definition parseDocx_body (file : File) : Try Vars unit :=
  zip ← call (JSZip_loadAsync file);
  docx_core zip;;
  docx_app zip;;
  docx_custom zip.

Definition parseDocx (file : File) : MetadataResult :=
  let st :=
    try_catch (parseDocx_body file)
      (fun message => push_warning (DOCX_ERROR message))
      init_vars in
  {| fileType := "DOCX";
     metadata := v_metadata st;
     warnings := v_warnings st;
     chunks := None;
     xmlDump := Some (v_xmlDump st) |}.

(** *** Failures of the libraries

    The calls [parsePdf] and [parseDocx] make inside their [try] block,
    and what it is for one of them to fail with a message. *)

(** The getters [parsePdf] calls, in the order of the calls. *)
Definition pdf_getters : list (PDFDocument -> Exc JsValue) :=
  [getPageCount; getTitle; getAuthor; getSubject; getKeywords; getCreator;
   getProducer; getCreationDate; getModificationDate].

(** The document does not load, or it loads and a getter throws. *)
Inductive pdf_failure (arrayBuffer : list byte) (message : string) : Prop :=
  | pdf_load_failure :
      PDFDocument_load arrayBuffer = inl message ->
      pdf_failure arrayBuffer message
  | pdf_getter_failure (pdfDoc : PDFDocument) (getter : PDFDocument -> Exc JsValue) :
      PDFDocument_load arrayBuffer = inr pdfDoc ->
      In getter pdf_getters ->
      getter pdfDoc = inl message ->
      pdf_failure arrayBuffer message.

(** The document loads and every getter returns. *)
Definition pdf_success (arrayBuffer : list byte) : Prop :=
  exists pdfDoc : PDFDocument,
    PDFDocument_load arrayBuffer = inr pdfDoc
    /\ Forall (fun getter => exists v : JsValue, getter pdfDoc = inr v) pdf_getters.

(** The keys of the metadata of [parsePdf], each with its getter. *)
Definition pdf_fields : list (string * (PDFDocument -> Exc JsValue)) :=
  [("pageCount", getPageCount); ("title", getTitle); ("author", getAuthor);
   ("subject", getSubject); ("keywords", getKeywords); ("creator", getCreator);
   ("producer", getProducer); ("creationDate", getCreationDate);
   ("modificationDate", getModificationDate)].

(** The entries [parseDocx] reads, in the order of the reads. *)
Definition docx_entries : list string :=
  ["docProps/core.xml"; "docProps/app.xml"; "docProps/custom.xml"].

(** The archive does not open, or it opens and an entry that is there
    cannot be read. *)
Inductive docx_failure (file : File) (message : string) : Prop :=
  | docx_open_failure :
      JSZip_loadAsync file = inl message ->
      docx_failure file message
  | docx_entry_failure (zip : JSZip) (path : string) (entry : ZipObject) :
      JSZip_loadAsync file = inr zip ->
      In path docx_entries ->
      JSZip_file zip path = Some entry ->
      ZipObject_async_text entry = inl message ->
      docx_failure file message.

(** *** Dispatch *)

(** [parseFile]; the PNG chunk loop runs for at most [fuel] turns. *)
Definition parseFile (fuel : nat) (file : File) : option MetadataResult :=
  let type := file_type file in
  let name := toLowerCase (file_name file) in
  if String.eqb type "image/jpeg" || endsWith name ".jpg" || endsWith name ".jpeg" then
    Some (parseImage file)
  else if String.eqb type "image/png" || endsWith name ".png" then
    parsePng fuel file
  else if String.eqb type "application/pdf" || endsWith name ".pdf" then
    Some (parsePdf file)
  else if String.eqb type DOCX_MIME || endsWith name ".docx" then
    Some (parseDocx file)
  else
    (* Generic fallback *)
    Some {| fileType := "GENERIC";
            metadata := ∅;
            warnings := [];
            chunks := None;
            xmlDump := None |}.

End WithLibraries.

End Parsers.

Import Parsers.

(** ** [src/utils/hashing.ts] *)

Module Hashing.

(** [FileHashes] *)
Record FileHashes := {
  md5 : string;
  sha1 : string;
  sha256 : string;
  sha512 : string
}.

(** spark-md5's [SparkMD5.ArrayBuffer] (created, fed, ended) and the Web
    Crypto [crypto.subtle.digest(algorithm, data)]. *)
Class HashLib := {
  SparkMD5 : Type;
  SparkMD5_new : SparkMD5;
  SparkMD5_append : SparkMD5 -> list byte -> SparkMD5;
  SparkMD5_end : SparkMD5 -> string;
  crypto_subtle_digest : string -> list byte -> Exc (list byte)
}.

Section WithHashLib.
Context {hashLib : HashLib}.

(** The copy of [bufferToHex] in [hashing.ts] has the text of the one
    in [common.ts]. *)
Definition bufferToHex (buffer : list byte) : string := Common.bufferToHex buffer.

(** [calculateHashes]: nothing is caught, a digest that throws is the
    failure of the call. *)
Definition calculateHashes (file : File) : Exc FileHashes :=
  let arrayBuffer := file_arrayBuffer file in
  (* MD5 using spark-md5 *)
  let spark := SparkMD5_new in
  let spark := SparkMD5_append spark arrayBuffer in
  let md5 := SparkMD5_end spark in
  (* SHA hashes using Web Crypto API *)
  sha1Buffer ← crypto_subtle_digest "SHA-1" arrayBuffer;
  let sha1 := bufferToHex sha1Buffer in
  sha256Buffer ← crypto_subtle_digest "SHA-256" arrayBuffer;
  let sha256 := bufferToHex sha256Buffer in
  sha512Buffer ← crypto_subtle_digest "SHA-512" arrayBuffer;
  let sha512 := bufferToHex sha512Buffer in
  mret {| md5 := md5; sha1 := sha1; sha256 := sha256; sha512 := sha512 |}.

End WithHashLib.

End Hashing.

(** ** [src/App.tsx]: the analysis of a selected file *)

Module App.

(** What the analysis keeps of the buffer besides hashes and metadata. *)
Record Views (num : Type) := {
  entropy : num;
  firstBytes : list byte;
  strings : list string
}.
Arguments entropy {num}.
Arguments firstBytes {num}.
Arguments strings {num}.

(** The three lines of [handleFilesSelected] that follow the awaited
    hashes, metadata and buffer. *)
Definition views {num : Type} {number : JsNumber num} (arrayBuffer : list byte) : Views num :=
  let entropy := getEntropy arrayBuffer in
  let firstBytes := ArrayBuffer_slice arrayBuffer 0 1024 in
  (* Limit string search to first 50KB for perf in UI *)
  let strings := extractStrings_default (ArrayBuffer_slice arrayBuffer 0 (50 * 1024)) in
  {| entropy := entropy; firstBytes := firstBytes; strings := strings |}.

End App.

(** ** The hex view of the file detail component *)

Module FileDetail.

(** [s.toUpperCase()] on text of code units below 128 (the view applies
    it to hexadecimal text only). *)
Fixpoint toUpperCase (s : string) : string :=
  match s with
  | EmptyString => EmptyString
  | String a s' =>
      let c := N_of_ascii a in
      String (if ((97 <=? c) && (c <=? 122))%N then ascii_of_N (c - 32) else a)
             (toUpperCase s')
  end.

(** [Math.ceil(firstBytes.byteLength / 16)]: the number of rows. *)
Definition row_count (firstBytes : list byte) : Z :=
  (data_length firstBytes + 15) / 16.

(** The row indices, [Array.from({ length: rows })] mapped with the index. *)
Definition row_indices (firstBytes : list byte) : list Z :=
  map Z.of_nat (seq 0 (Z.to_nat (row_count firstBytes))).

(** [(i * 16).toString(16).padStart(8, '0').toUpperCase()] *)
Definition offset_label (i : Z) : string :=
  toUpperCase (padStart (Number_toString16 (i * 16)) 8 "0").

(** [new Uint8Array(firstBytes.slice(i * 16, (i + 1) * 16))] *)
Definition row_bytes (firstBytes : list byte) (i : Z) : list byte :=
  ArrayBuffer_slice firstBytes (i * 16) ((i + 1) * 16).

(** [b.toString(16).padStart(2, '0').toUpperCase()] *)
Definition hex_cell (b : byte) : string :=
  toUpperCase (padStart (Number_toString16 (byte_code b)) 2 "0").

(** [(b >= 32 && b <= 126) ? String.fromCharCode(b) : '.'], joined. *)
Definition ascii_row (chunk : list byte) : string :=
  join_strings
    (map (fun b =>
            let c := byte_code b in
            if (32 <=? c) && (c <=? 126) then fromCharCode1 c else ".")
         chunk).

(** The rows of the view: offset label, hex cells and text. *)
Definition hex_view (firstBytes : list byte) : list (string * list string * string) :=
  map (fun i =>
         let chunk := row_bytes firstBytes i in
         (offset_label i, map hex_cell chunk, ascii_row chunk))
      (row_indices firstBytes).

End FileDetail.

(** ** The PNG chunk stream as the specification words it *)

Module PngSpec.

(** [length: uint32 big-endian]: the four bytes at [offset], most
    significant first, as an unsigned number; [None] when the buffer
    does not hold them. *)
Definition uint32_be (data : list byte) (offset : nat) : option Z :=
  b0 ← data !! offset;
  b1 ← data !! (offset + 1)%nat;
  b2 ← data !! (offset + 2)%nat;
  b3 ← data !! (offset + 3)%nat;
  Some (byte_code b0 * 2 ^ 24 + byte_code b1 * 2 ^ 16
        + byte_code b2 * 2 ^ 8 + byte_code b3).

(** [type: 4-byte ASCII tag]: the four bytes after the length. *)
Definition type_tag (data : list byte) (offset : nat) : option string :=
  b4 ← data !! (offset + 4)%nat;
  b5 ← data !! (offset + 5)%nat;
  b6 ← data !! (offset + 6)%nat;
  b7 ← data !! (offset + 7)%nat;
  Some (string_of_list_byte [b4; b5; b6; b7]).

(** The walk of the chunk stream from [offset]: it stops when fewer
    than 8 bytes remain; else it records name = type, size = length and
    offset = chunk start, and goes on [4 + 4 + length + 4] bytes
    further. *)
Inductive chunk_stream (data : list byte) : nat -> list Chunk -> Prop :=
  | stream_end (start : nat) :
      (length data < start + 8)%nat ->
      chunk_stream data start []
  | stream_chunk (start : nat) (len : Z) (tag : string) (rest : list Chunk) :
      (start + 8 <= length data)%nat ->
      uint32_be data start = Some len ->
      type_tag data start = Some tag ->
      chunk_stream data (start + (4 + 4 + Z.to_nat len + 4)) rest ->
      chunk_stream data start
        ({| name := tag; size := len; offset := Z.of_nat start |} :: rest).

(** Chunks that follow one another from [start] to [stop]: each begins
    where the one before it ends, [4 + 4 + size + 4] bytes after its
    own offset. *)
Fixpoint chained (start : Z) (cs : list Chunk) (stop : Z) : Prop :=
  match cs with
  | [] => start = stop
  | c :: rest => offset c = start /\ chained (start + (4 + 4 + size c + 4)) rest stop
  end.

(** What the code recorded for a chunk: its offset passed the two tests
    of the loop, so the 8 bytes of the header end within the buffer;
    name and size are what the code reads at that offset; the name has 4
    characters and the size is a signed 32-bit number.  The offset is
    bounded from above only: after a negative size it can be negative,
    and the bytes read before the buffer are [undefined]. *)
Definition recorded (data : list byte) (c : Chunk) : Prop :=
  offset c < data_length data
  /\ offset c + 8 <= data_length data
  /\ name c = chunk_type data (offset c)
  /\ size c = chunk_length data (offset c)
  /\ String.length (name c) = 4%nat
  /\ -2147483648 <= size c < 2147483648.

(** The 8 bytes of the header of a chunk are bytes of the buffer. *)
Definition header_inside (data : list byte) (c : Chunk) : Prop :=
  0 <= offset c /\ offset c + 8 <= data_length data.

End PngSpec.

(** ** Sample implementations of the libraries

    Small implementations of the interfaces, on which the parsers can be
    run: the real numbers for the arithmetic of [getEntropy]; a date
    parser for the ISO date form [YYYY-MM-DD]; a PDF loader that wants
    the [%PDF-] header; an image reader that knows no format; an archive
    whose entries are given; a DOM whose documents are lists of
    elements. *)

Module Sample.

(** JavaScript numbers read as real numbers. *)
Definition real_number : JsNumber R :=
  {| of_count := INR;
     num_div := Rdiv;
     num_mul := Rmult;
     num_sub := Rminus;
     Math_log2 := fun x => (ln x / ln 2)%R |}.

Definition digit (a : ascii) : option Z :=
  let n := Z.of_N (N_of_ascii a) in
  if (48 <=? n) && (n <=? 57) then Some (n - 48) else None.

(** Days from 1970-01-01 to the civil date. *)
Definition days_from_civil (y m d : Z) : Z :=
  let y' := if m <=? 2 then y - 1 else y in
  let era := y' / 400 in
  let yoe := y' - era * 400 in
  let doy := (153 * (if m >? 2 then m - 3 else m + 9) + 2) / 5 + d - 1 in
  let doe := yoe * 365 + yoe / 4 - yoe / 100 + doy in
  era * 146097 + doe - 719468.

Definition parse_iso_date (s : string) : option Z :=
  match list_ascii_of_string s with
  | [y1; y2; y3; y4; dash1; m1; m2; dash2; d1; d2] =>
      y1 ← digit y1; y2 ← digit y2; y3 ← digit y3; y4 ← digit y4;
      m1 ← digit m1; m2 ← digit m2; d1 ← digit d1; d2 ← digit d2;
      let y := 1000 * y1 + 100 * y2 + 10 * y3 + y4 in
      let m := 10 * m1 + m2 in
      let d := 10 * d1 + d2 in
      if Ascii.eqb dash1 "-" && Ascii.eqb dash2 "-"
         && (1 <=? m) && (m <=? 12) && (1 <=? d) && (d <=? 31)
      then Some (days_from_civil y m d * 86400000)
      else None
  | _ => None
  end.

Definition parse_digits (s : string) : option Z :=
  match s with
  | EmptyString => Some 0
  | _ =>
      foldl (fun acc a => n ← acc; k ← digit a; Some (10 * n + k)) (Some 0)
            (list_ascii_of_string s)
  end.

Definition builtins : Builtins :=
  {| Date_parse := parse_iso_date;
     StringToNumber := parse_digits;
     Date_toString := fun d =>
       match d with
       | Some ms => pretty ms
       | None => "Invalid Date"
       end |}.

(** An image reader that recognises no file. *)
Definition exifLib : ExifLib :=
  {| ExifReader_load := fun _ => inl "Invalid image format" |}.

(** An image reader that gives the same result for every file. *)
Definition exifReader (result : Exc (gmap string JsValue)) : ExifLib :=
  {| ExifReader_load := fun _ => result |}.

(** A tag tree whose [exif.Software] has no description. *)
Definition bare_software_tags : gmap string JsValue :=
  {[ "exif" := JObj {[ "Software" := JObj {[ "value" := JStr "GIMP" ]} ]} ]}.

(** A PDF loader: a buffer that starts with [%PDF-] loads, with no page
    and an empty Info dictionary; any other buffer is refused. *)
Definition pdfLib : PdfLib :=
  {| PDFDocument := list byte;
     PDFDocument_load := fun buffer =>
       if startsWith (string_of_list_byte buffer) "%PDF-" then inr buffer
       else inl "No PDF header found";
     getPageCount := fun _ => inr (JNum 0);
     getTitle := fun _ => inr JUndefined;
     getAuthor := fun _ => inr JUndefined;
     getSubject := fun _ => inr JUndefined;
     getKeywords := fun _ => inr JUndefined;
     getCreator := fun _ => inr JUndefined;
     getProducer := fun _ => inr JUndefined;
     getCreationDate := fun _ => inr JUndefined;
     getModificationDate := fun _ => inr JUndefined |}.

(** A PDF loader whose documents have three pages and the title
    [Report], and whose creation date cannot be read. *)
Definition damagedPdfLib : PdfLib :=
  {| PDFDocument := list byte;
     PDFDocument_load := fun buffer =>
       if startsWith (string_of_list_byte buffer) "%PDF-" then inr buffer
       else inl "No PDF header found";
     getPageCount := fun _ => inr (JNum 3);
     getTitle := fun _ => inr (JStr "Report");
     getAuthor := fun _ => inr JUndefined;
     getSubject := fun _ => inr JUndefined;
     getKeywords := fun _ => inr JUndefined;
     getCreator := fun _ => inr JUndefined;
     getProducer := fun _ => inr JUndefined;
     getCreationDate := fun _ =>
       inl "Expected instance of PDFString or PDFHexString, but got instance of PDFName";
     getModificationDate := fun _ => inr JUndefined |}.

(** An archive reader: an empty file is refused; any other file opens
    as the given entries, each with its text or the failure of its
    decompression. *)
Definition zipLib (entries : list (string * Exc string)) : ZipLib :=
  {| JSZip := list (string * Exc string);
     ZipObject := Exc string;
     JSZip_loadAsync := fun file =>
       match file_arrayBuffer file with
       | [] => inl "Can't find end of central directory : is this a zip file ?"
       | _ => inr entries
       end;
     JSZip_file := fun zip path => snd <$> List.find (fun e => String.eqb (fst e) path) zip;
     ZipObject_async_text := fun entry => entry |}.

(** A DOM whose parser looks the text up in a table of documents, a
    document being its elements (tag and text) in document order. *)
Definition domLib (documents : list (string * list (string * string))) : DomLib :=
  {| XMLDocument := list (string * string);
     Element := string * string;
     DOMParser_parseFromString := fun text =>
       default [] (snd <$> List.find (fun d => String.eqb (fst d) text) documents);
     getElementsByTagName := fun doc tag =>
       List.filter (fun el => String.eqb (fst el) tag) doc;
     textContent := snd |}.

(** The text of a [docProps/core.xml] and its elements. *)
Definition core_xml : string :=
  "<cp:coreProperties><dc:creator>A</dc:creator><dcterms:created>2020-01-02</dcterms:created><dcterms:modified>2020-01-01</dcterms:modified></cp:coreProperties>".

Definition core_xml_elements : list (string * string) :=
  [("cp:coreProperties", "A2020-01-022020-01-01");
   ("dc:creator", "A");
   ("dcterms:created", "2020-01-02");
   ("dcterms:modified", "2020-01-01")].

Definition documents : list (string * list (string * string)) :=
  [(core_xml, core_xml_elements)].

(** A toy hash library: the "digest" of a buffer is its first bytes,
    filled up with zeros to the length of the algorithm's digest; an
    unknown algorithm is refused. *)
Definition toy_digest (n : nat) (buffer : list byte) : list byte :=
  take n (buffer ++ replicate n x00).

Definition hashLib : Hashing.HashLib :=
  {| Hashing.SparkMD5 := list byte;
     Hashing.SparkMD5_new := [];
     Hashing.SparkMD5_append := fun spark buffer => spark ++ buffer;
     Hashing.SparkMD5_end := fun spark => bufferToHex (toy_digest 16 spark);
     Hashing.crypto_subtle_digest := fun algorithm buffer =>
       if String.eqb algorithm "SHA-1" then inr (toy_digest 20 buffer)
       else if String.eqb algorithm "SHA-256" then inr (toy_digest 32 buffer)
       else if String.eqb algorithm "SHA-512" then inr (toy_digest 64 buffer)
       else inl "Unrecognized name." |}.

(** Files. *)
Definition file (type name : string) (content : list byte) : File :=
  {| file_type := type; file_name := name; file_arrayBuffer := content |}.

(** The PNG signature. *)
Definition png_signature : list byte :=
  [x89; x50; x4e; x47; x0d; x0a; x1a; x0a].

(** The signature and one [IEND] chunk of length 0 with the CRC [crc]. *)
Definition iend_png (crc : list byte) : list byte :=
  png_signature ++ [x00; x00; x00; x00] ++ bytes_of "IEND" ++ crc.

(** The signature and a chunk header whose length field is 0xFFFFFFFF. *)
Definition huge_length_png : list byte :=
  png_signature ++ [xff; xff; xff; xff] ++ bytes_of "IDAT".

(** The signature and a chunk header whose length field is 0xFFFFFFF4. *)
Definition looping_png : list byte :=
  png_signature ++ [xff; xff; xff; xf4] ++ bytes_of "IDAT".

(** The signature and a chunk header whose length field is 0xFFFFFFEA. *)
Definition backward_png : list byte :=
  png_signature ++ [xff; xff; xff; xea] ++ bytes_of "IDAT".

End Sample.

(** * Theorems *)

(** ** The string extractor *)

Section StringExtractor.
Import StringExtractorSpec.

Lemma append_nil (b : string) : "" +:+ b = b.
Proof. reflexivity. Qed.

Lemma append_cons (x : ascii) (a b : string) :
  String x a +:+ b = String x (a +:+ b).
Proof. reflexivity. Qed.

Lemma length_append (a b : string) :
  String.length (a +:+ b) = (String.length a + String.length b)%nat.
Proof.
  induction a as [|x a IH]; [reflexivity|].
  rewrite append_cons. simpl. now rewrite IH.
Qed.

(** [String.fromCharCode] on the code of a byte is the character of
    the byte. *)
Lemma ascii_of_byte_code (b : byte) :
  ascii_of_N (Z.to_N (byte_code b mod 65536)) = ascii_of_byte b.
Proof. destruct b; reflexivity. Qed.

Lemma run_string_nil : run_string [] = "".
Proof. reflexivity. Qed.

Lemma run_string_cons (b : byte) (r : list byte) :
  run_string (b :: r) = fromCharCode1 (byte_code b) +:+ run_string r.
Proof. unfold fromCharCode1. rewrite ascii_of_byte_code. reflexivity. Qed.

Lemma run_string_app (r1 r2 : list byte) :
  run_string (r1 ++ r2) = run_string r1 +:+ run_string r2.
Proof.
  induction r1 as [|b r1 IH]; [reflexivity|].
  rewrite <- app_comm_cons, !run_string_cons, IH.
  unfold fromCharCode1. now rewrite !append_cons, !append_nil.
Qed.

Lemma run_string_snoc (pre : list byte) (b : byte) :
  run_string (pre ++ [b]) = run_string pre +:+ fromCharCode1 (byte_code b).
Proof.
  rewrite run_string_app, (run_string_cons b []), run_string_nil.
  unfold fromCharCode1. now rewrite append_cons, append_nil.
Qed.

Lemma run_string_length (r : list byte) :
  String.length (run_string r) = length r.
Proof.
  induction r as [|b r IH]; [reflexivity|].
  rewrite run_string_cons, length_append, IH. reflexivity.
Qed.

Lemma runs_nonempty (bytes : list byte) : exists r rs, runs bytes = r :: rs.
Proof.
  induction bytes as [|b rest IH]; simpl; [eauto|].
  destruct (printable (byte_code b)); [|eauto].
  destruct IH as (r & rs & ->). simpl. eauto.
Qed.

Lemma extend_nil (bytes : list byte) : extend [] (runs bytes) = runs bytes.
Proof. destruct (runs_nonempty bytes) as (r & rs & ->). reflexivity. Qed.

Lemma extend_extend (pre : list byte) (b : byte) (rs : list (list byte)) :
  rs <> [] -> extend pre (extend [b] rs) = extend (pre ++ [b]) rs.
Proof.
  destruct rs as [|r rs]; [congruence|]. intros _. simpl.
  now rewrite <- List.app_assoc.
Qed.

(** The loop invariant of [extractStrings]: with the strings [acc]
    pushed so far and [pre] the run being accumulated, the rest of the
    scan pushes the long enough runs of the rest, [pre] in front of the
    first. *)
Lemma scan_runs (minLength : Z) (bytes : list byte) :
  forall (acc : list string) (pre : list byte),
    flush minLength
      (foldl (scan_byte minLength)
             {| strings := acc; currentString := run_string pre |} bytes)
    = acc ++ map run_string
               (List.filter (long_enough minLength) (extend pre (runs bytes))).
Proof.
  induction bytes as [|b rest IH]; intros acc pre.
  - simpl. unfold flush, long_enough. simpl.
    rewrite run_string_length, app_nil_r.
    destruct (minLength <=? Z.of_nat (length pre)); simpl;
      [reflexivity | now rewrite app_nil_r].
  - simpl. unfold scan_byte at 2. simpl.
    destruct (printable (byte_code b)) eqn:Hb.
    + rewrite <- run_string_snoc, IH.
      rewrite extend_extend; [reflexivity|].
      destruct (runs_nonempty rest) as (r & rs & ->). discriminate.
    + change "" with (run_string []). rewrite IH, extend_nil.
      unfold flush, long_enough. simpl.
      rewrite run_string_length, app_nil_r.
      destruct (minLength <=? Z.of_nat (length pre)); simpl;
        [now rewrite <- app_assoc | reflexivity].
Qed.

Lemma extractStrings_runs (buffer : list byte) (minLength : Z) :
  extractStrings buffer minLength = extractPrintableStrings buffer minLength.
Proof.
  unfold extractStrings, extractPrintableStrings.
  change "" with (run_string []).
  rewrite (scan_runs minLength buffer [] []), extend_nil. reflexivity.
Qed.

(** The runs are what the specification says: every byte of a run is
    printable, there is one more run than separators, and the runs with
    the separators between them are the buffer. *)
Lemma runs_printable (bytes : list byte) :
  Forall (Forall (fun b => printable (byte_code b) = true)) (runs bytes).
Proof.
  induction bytes as [|b rest IH]; simpl.
  - repeat constructor.
  - destruct (printable (byte_code b)) eqn:Hb.
    + destruct (runs_nonempty rest) as (r & rs & E). rewrite E in *. simpl.
      inversion IH; subst. repeat constructor; assumption.
    + constructor; [constructor | assumption].
Qed.

Lemma runs_length (bytes : list byte) :
  length (runs bytes) = S (length (separators bytes)).
Proof.
  induction bytes as [|b rest IH]; simpl; [reflexivity|].
  destruct (printable (byte_code b)); simpl.
  - destruct (runs_nonempty rest) as (r & rs & E). rewrite E in *. exact IH.
  - now rewrite IH.
Qed.

Lemma runs_join (bytes : list byte) :
  join (runs bytes) (separators bytes) = bytes.
Proof.
  induction bytes as [|b rest IH]; simpl; [reflexivity|].
  destruct (printable (byte_code b)); simpl.
  - destruct (runs_nonempty rest) as (r & rs & E). rewrite E in *. simpl.
    destruct (separators rest); simpl in *; now rewrite <- IH.
  - now rewrite IH.
Qed.

Lemma byte_code_bounds (b : byte) : 0 <= byte_code b < 256.
Proof.
  unfold byte_code. pose proof (Byte.to_N_bounded b). lia.
Qed.

Lemma list_ascii_append (a b : string) :
  list_ascii_of_string (a +:+ b) = list_ascii_of_string a ++ list_ascii_of_string b.
Proof.
  induction a as [|x a IH]; [reflexivity|].
  rewrite append_cons. simpl. now rewrite IH.
Qed.

Lemma run_string_chars (r : list byte) :
  list_ascii_of_string (run_string r) = map ascii_of_byte r.
Proof. apply list_ascii_of_string_of_list_ascii. Qed.

Lemma char_code_of_byte (b : byte) : char_code (ascii_of_byte b) = byte_code b.
Proof. destruct b; reflexivity. Qed.

Lemma printable_spec (c : Z) :
  printable c = true <-> (32 <= c <= 126 \/ c = 9 \/ c = 10 \/ c = 13).
Proof. unfold printable. lia. Qed.

(** C5. [extractStrings] is the single scan of the specification: it
    returns, in buffer order, the maximal runs of printable bytes (bytes
    in 0x20..0x7E, tab, LF, CR) whose length is at least [minLength],
    the trailing run under the same rule; on [AB\0CDEF\1GH] with
    [minLength = 2] it returns [AB], [CDEF], [GH], and on [A\0BCDE] with
    [minLength = 4] it drops [A] and keeps [BCDE]. *)
Theorem extractStrings_spec :
  (forall (buffer : list byte) (minLength : Z),
     extractStrings buffer minLength = extractPrintableStrings buffer minLength)
  /\ extractStrings
       (bytes_of "AB" ++ [x00] ++ bytes_of "CDEF" ++ [x01] ++ bytes_of "GH") 2
     = ["AB"; "CDEF"; "GH"]
  /\ extractStrings (bytes_of "A" ++ [x00] ++ bytes_of "BCDE") 4 = ["BCDE"].
Proof.
  split; [exact extractStrings_runs|]. split; reflexivity.
Qed.

(** C9. Every string [extractStrings] returns has length at least
    [minLength], and each of its characters has a code in 0x20..0x7E or
    equal to 9, 10 or 13. *)
Theorem extractStrings_long_printable (buffer : list byte) (minLength : Z) :
  Forall
    (fun s =>
       minLength <= Z.of_nat (String.length s)
       /\ Forall
            (fun a =>
               32 <= char_code a <= 126
               \/ char_code a = 9 \/ char_code a = 10 \/ char_code a = 13)
            (list_ascii_of_string s))
    (extractStrings buffer minLength).
Proof.
  rewrite extractStrings_runs. unfold extractPrintableStrings.
  apply List.Forall_forall. intros s Hs.
  apply in_map_iff in Hs. destruct Hs as (r & <- & Hr).
  apply filter_In in Hr. destruct Hr as [Hr Hlong].
  split.
  - rewrite run_string_length. unfold long_enough in Hlong. lia.
  - pose proof (proj1 (List.Forall_forall _ _) (runs_printable buffer) r Hr) as Hp.
    cbv beta in Hp. rewrite run_string_chars.
    apply List.Forall_forall. intros a Ha.
    apply in_map_iff in Ha. destruct Ha as (b & <- & Hb).
    rewrite char_code_of_byte.
    apply printable_spec.
    exact (proj1 (List.Forall_forall _ _) Hp b Hb).
Qed.

End StringExtractor.

(** ** The entropy analyzer *)

Section EntropyZero.
Context {num : Type} {number : JsNumber num}.

(** What the proof uses of the arithmetic of JavaScript numbers, each a
    fact of IEEE 754 doubles and of ECMAScript's [Math.log2]: a positive
    count divided by itself is 1; [Math.log2(1)] is 0; 1 * 0 is 0; 0 - 0
    is 0. *)
Hypothesis div_self :
  forall n : nat, (0 < n)%nat -> num_div (of_count n) (of_count n) = of_count 1%nat.
Hypothesis log2_one : Math_log2 (of_count 1%nat) = of_count 0%nat.
Hypothesis mul_one_zero : num_mul (of_count 1%nat) (of_count 0%nat) = of_count 0%nat.
Hypothesis sub_zero_zero : num_sub (of_count 0%nat) (of_count 0%nat) = of_count 0%nat.

Lemma entropy_zeros (len k : nat) (entropy : num) :
  foldl (entropy_step len) entropy (replicate k 0%nat) = entropy.
Proof. induction k as [|k IH]; simpl; [reflexivity | exact IH]. Qed.

Lemma byte_index (b : byte) : (Z.to_nat (byte_code b) < 256)%nat.
Proof. pose proof (byte_code_bounds b). lia. Qed.

(** Counting [n] times the same byte adds [n] to its bucket. *)
Lemma histogram_same (b : byte) (n : nat) (frequencies : list nat) :
  foldl count_byte frequencies (replicate n b)
  = alter (Nat.add n) (Z.to_nat (byte_code b)) frequencies.
Proof.
  revert frequencies. induction n as [|n IH]; intros frequencies; simpl.
  - symmetry. apply list_alter_id. reflexivity.
  - rewrite IH. unfold count_byte. rewrite list_alter_alter_eq.
    apply list_alter_ext; [|reflexivity]. intros x _. simpl. lia.
Qed.

(** The histogram of [n] equal bytes: [n] in the bucket of the byte,
    zero in the 255 others. *)
Lemma histogram_replicate (b : byte) (n : nat) :
  histogram (replicate n b)
  = replicate (Z.to_nat (byte_code b)) 0%nat
    ++ n :: replicate (255 - Z.to_nat (byte_code b)) 0%nat.
Proof.
  unfold histogram. rewrite histogram_same.
  pose proof (byte_index b) as Hi.
  set (i := Z.to_nat (byte_code b)) in *.
  replace 256%nat with (i + S (255 - i))%nat at 1 by lia.
  rewrite replicate_add, alter_app_r_alt by (rewrite length_replicate; lia).
  rewrite length_replicate, Nat.sub_diag. simpl.
  now rewrite Nat.add_0_r.
Qed.

(** The frequencies add up to the length of the buffer, so a positive
    frequency is divided by a positive length: no division by zero. *)
Lemma histogram_sum (data : list byte) :
  forall frequencies : list nat,
    length frequencies = 256%nat ->
    sum_list (foldl count_byte frequencies data)
    = (sum_list frequencies + length data)%nat.
Proof.
  induction data as [|b rest IH]; intros frequencies Hlen; simpl; [lia|].
  assert (Hb : (Z.to_nat (byte_code b) < length frequencies)%nat)
    by (rewrite Hlen; apply byte_index).
  rewrite IH by (unfold count_byte; now rewrite length_alter).
  unfold count_byte.
  destruct (lookup_lt_is_Some_2 _ _ Hb) as [x Hx].
  rewrite <- (take_drop_middle _ _ _ Hx) at 1 2.
  assert (Ht : length (take (Z.to_nat (byte_code b)) frequencies)
               = Z.to_nat (byte_code b)) by (rewrite length_take; lia).
  rewrite alter_app_r_alt by lia.
  rewrite Ht, Nat.sub_diag. simpl. rewrite !sum_list_with_app. simpl. unfold Datatypes.id. lia.
Qed.

Lemma frequency_le_length (data : list byte) (i frequency : nat) :
  histogram data !! i = Some frequency -> (frequency <= length data)%nat.
Proof.
  intros Hi. pose proof (histogram_sum data (replicate 256 0%nat)) as Hs.
  rewrite length_replicate in Hs. specialize (Hs eq_refl).
  fold (histogram data) in Hs.
  assert (sum_list (replicate 256 0%nat) = 0%nat) as E by reflexivity.
  rewrite E in Hs. clear E.
  apply list_elem_of_lookup_2 in Hi.
  pose proof (sum_list_with_in _ Datatypes.id _ Hi) as Hle.
  unfold Datatypes.id in Hle at 1. lia.
Qed.

(** C6. [getEntropy] returns exactly 0 for the empty buffer (every
    frequency is zero there, so nothing is divided and no logarithm is
    taken), and exactly 0 for every buffer of one or more equal bytes. *)
Theorem getEntropy_zero :
  (getEntropy [] = of_count 0%nat
   /\ Forall (fun frequency => frequency = 0%nat) (histogram []))
  /\ forall (b : byte) (n : nat),
       getEntropy (replicate (S n) b) = of_count 0%nat.
Proof.
  split.
  - split.
    + unfold getEntropy. apply (entropy_zeros 0 256).
    + apply Forall_replicate. reflexivity.
  - intros b n. unfold getEntropy.
    rewrite histogram_replicate, length_replicate, foldl_app, entropy_zeros.
    simpl. rewrite entropy_zeros. unfold entropy_step. simpl.
    rewrite div_self by lia.
    now rewrite log2_one, mul_one_zero, sub_zero_zero.
Qed.

End EntropyZero.

(** The real numbers have the four facts. *)
Lemma getEntropy_zero_real :
  getEntropy (number := Sample.real_number) [] = 0%R
  /\ getEntropy (number := Sample.real_number) (replicate 3 x41) = 0%R.
Proof.
  assert (H := getEntropy_zero (number := Sample.real_number)).
  simpl in H.
  destruct H as [[H0 _] H1].
  - intros n Hn. unfold Rdiv. apply Rinv_r. apply not_0_INR. lia.
  - rewrite ln_1. unfold Rdiv. apply Rmult_0_l.
  - apply Rmult_0_r.
  - apply Rminus_diag_eq. reflexivity.
  - split; [exact H0 | exact (H1 x41 2%nat)].
Defined.

(** ** The PNG chunk walk *)

Section PngWalk.
Context {builtins : Builtins} {exifLib : ExifLib}.

Lemma walk_exit (data : list byte) (w : Walk) (fuel : nat) :
  walk_step data w = None -> walk fuel data w = Some w.
Proof. intros H. destruct fuel; simpl; now rewrite H. Qed.

Lemma walk_turn (data : list byte) (w w' : Walk) (fuel : nat) :
  walk_step data w = Some w' -> walk (S fuel) data w = walk fuel data w'.
Proof. intros H. simpl. now rewrite H. Qed.

Lemma walk_out_of_fuel (data : list byte) (w w' : Walk) :
  walk_step data w = Some w' -> walk 0 data w = None.
Proof. intros H. simpl. now rewrite H. Qed.

(** A buffer of at most 15 bytes has no room for a chunk header after
    the signature: the loop is left at once. *)
Lemma walk_short (data : list byte) (fuel : nat) :
  (length data < 16)%nat ->
  walk fuel data {| w_chunks := []; w_offset := 8 |}
  = Some {| w_chunks := []; w_offset := 8 |}.
Proof.
  intros H. apply walk_exit. unfold walk_step, data_length. simpl.
  destruct (8 <? Z.of_nat (length data)) eqn:E1; [|reflexivity].
  destruct (8 + 8 >? Z.of_nat (length data)) eqn:E2; [reflexivity|]. lia.
Qed.

Lemma bad_signature_short (data : list byte) :
  (length data < 4)%nat -> bad_signature data = true.
Proof.
  intros H. unfold bad_signature.
  assert (data_at data 3 = None) as ->.
  { unfold data_at. simpl. rewrite lookup_ge_None_2; [reflexivity | simpl; lia]. }
  simpl. now rewrite !orb_true_r.
Qed.

(** C10. On a buffer shorter than 4 bytes (the empty one too)
    [parsePng] returns a result, whatever the bound on the loop: its
    warnings have the invalid-signature warning and its chunk list is
    empty. *)
Theorem parsePng_short (fuel : nat) (file : File) :
  (length (file_arrayBuffer file) < 4)%nat ->
  exists result : MetadataResult,
    parsePng fuel file = Some result
    /\ In PNG_SIGNATURE_WARNING (warnings result)
    /\ chunks result = Some [].
Proof.
  intros H. unfold parsePng.
  rewrite walk_short by lia. rewrite bad_signature_short by exact H.
  simpl. eexists. split; [reflexivity|]. simpl. split; [now left | reflexivity].
Qed.

End PngWalk.

Lemma parsePng_short_witness :
  exists result : MetadataResult,
    parsePng (builtins := Sample.builtins) (exifLib := Sample.exifLib) 0
      (Sample.file "image/png" "short.png" [x89; x50]) = Some result
    /\ In PNG_SIGNATURE_WARNING (warnings result)
    /\ chunks result = Some [].
Proof.
  apply (parsePng_short (builtins := Sample.builtins) (exifLib := Sample.exifLib)).
  simpl. lia.
Defined.

(** ** The chunk walk against the chunk stream of the specification *)

Section PngStream.
Import PngSpec.

Lemma to_int32_range (z : Z) : -2147483648 <= to_int32 z < 2147483648.
Proof. unfold to_int32. pose proof (Z.mod_pos_bound (z + 2147483648) 4294967296). lia. Qed.

Lemma to_int32_small (z : Z) : -2147483648 <= z < 2147483648 -> to_int32 z = z.
Proof. intros H. unfold to_int32. rewrite Z.mod_small; lia. Qed.

Lemma to_int32_mod (z : Z) : to_int32 z mod 4294967296 = z mod 4294967296.
Proof.
  unfold to_int32.
  rewrite (Z.mod_eq (z + 2147483648) 4294967296) by lia.
  replace (z + 2147483648 - 4294967296 * ((z + 2147483648) / 4294967296) - 2147483648)
    with (z + (- ((z + 2147483648) / 4294967296)) * 4294967296) by lia.
  apply Z_mod_plus_full.
Qed.

Lemma to_int32_congr (a b : Z) :
  a mod 4294967296 = b mod 4294967296 -> to_int32 a = to_int32 b.
Proof.
  intros H. unfold to_int32.
  rewrite <- (Zplus_mod_idemp_l a), <- (Zplus_mod_idemp_l b), H. reflexivity.
Qed.

Lemma lor_mod (a b : Z) :
  Z.lor a b mod 4294967296
  = Z.lor (a mod 4294967296) (b mod 4294967296).
Proof.
  change 4294967296 with (2 ^ 32).
  rewrite <- !Z.land_ones by lia. apply Z.land_lor_distr_l.
Qed.

(** [a | b] on numbers known up to 2^32. *)
Lemma js_bor_congr (a b a' b' : Z) :
  a mod 4294967296 = a' mod 4294967296 ->
  b mod 4294967296 = b' mod 4294967296 ->
  js_bor a b = to_int32 (Z.lor a' b').
Proof.
  intros Ha Hb. unfold js_bor. apply to_int32_congr.
  rewrite !lor_mod, !to_int32_mod, Ha, Hb. reflexivity.
Qed.

(** Bits that do not overlap: or is addition. *)
Lemma lor_add (hi lo k : Z) :
  0 <= k -> 0 <= lo < 2 ^ k -> Z.lor (hi * 2 ^ k) lo = hi * 2 ^ k + lo.
Proof.
  intros Hk Hlo.
  rewrite <- Z.add_lor_land.
  assert (Z.land (hi * 2 ^ k) lo = 0) as ->; [|lia].
  apply Z.bits_inj'. intros n Hn.
  rewrite Z.land_spec, Z.bits_0.
  destruct (Z.ltb_spec n k).
  - rewrite Z.mul_pow2_bits_low by lia. reflexivity.
  - destruct (Z.eq_dec lo 0) as [-> | Hne].
    + rewrite Z.bits_0. apply andb_false_r.
    + rewrite (Z.bits_above_log2 lo n); [apply andb_false_r | lia |].
      apply Z.log2_lt_pow2; [lia|].
      apply Z.lt_le_trans with (2 ^ k); [lia|].
      apply Z.pow_le_mono_r; lia.
Qed.

Lemma js_shl_byte (b : Z) (k : Z) :
  0 <= b < 256 -> 0 <= k ->
  js_shl (Some b) k mod 4294967296 = (b * 2 ^ k) mod 4294967296.
Proof.
  intros Hb Hk. unfold js_shl. simpl default.
  rewrite to_int32_mod, to_int32_small by lia.
  now rewrite Z.shiftl_mul_pow2.
Qed.

(** The length expression of [parsePng] on four bytes: the big-endian
    number wrapped to a signed 32-bit one. *)
Lemma length_expression (b0 b1 b2 b3 : Z) :
  0 <= b0 < 256 -> 0 <= b1 < 256 -> 0 <= b2 < 256 -> 0 <= b3 < 256 ->
  js_bor
    (js_bor (js_bor (js_shl (Some b0) 24) (js_shl (Some b1) 16))
            (js_shl (Some b2) 8))
    b3
  = to_int32 (b0 * 2 ^ 24 + b1 * 2 ^ 16 + b2 * 2 ^ 8 + b3).
Proof.
  intros H0 H1 H2 H3.
  rewrite (js_bor_congr _ _ (b0 * 2 ^ 24 + b1 * 2 ^ 16 + b2 * 2 ^ 8) b3);
    [| |reflexivity].
  - f_equal.
    replace (b0 * 2 ^ 24 + b1 * 2 ^ 16 + b2 * 2 ^ 8)
      with ((b0 * 2 ^ 16 + b1 * 2 ^ 8 + b2) * 2 ^ 8) by lia.
    apply lor_add; lia.
  - rewrite (js_bor_congr _ _ (b0 * 2 ^ 24 + b1 * 2 ^ 16) (b2 * 2 ^ 8));
      [| |apply js_shl_byte; lia].
    + rewrite to_int32_mod. f_equal.
      replace (b0 * 2 ^ 24 + b1 * 2 ^ 16)
        with ((b0 * 2 ^ 8 + b1) * 2 ^ 16) by lia.
      apply lor_add; lia.
    + rewrite (js_bor_congr _ _ (b0 * 2 ^ 24) (b1 * 2 ^ 16));
        [| apply js_shl_byte; lia | apply js_shl_byte; lia].
      rewrite to_int32_mod. f_equal. apply lor_add; lia.
Qed.

Lemma data_at_nat (data : list byte) (i : nat) (k : Z) :
  0 <= k -> data_at data (Z.of_nat i + k) = byte_code <$> data !! (i + Z.to_nat k)%nat.
Proof.
  intros Hk. unfold data_at.
  destruct (Z.ltb_spec (Z.of_nat i + k) 0); [lia|].
  f_equal. f_equal. lia.
Qed.

(** The length the code reads at a chunk start is the [uint32] field
    wrapped to a signed 32-bit number: the field itself below 2^31, the
    field minus 2^32 from 2^31 on. *)
Lemma chunk_length_spec (data : list byte) (start : nat) (len : Z) :
  uint32_be data start = Some len ->
  0 <= len < 4294967296
  /\ chunk_length data (Z.of_nat start)
     = (if len <? 2147483648 then len else len - 4294967296).
Proof.
  unfold uint32_be. intros H.
  destruct (data !! start) as [b0|] eqn:E0; [|discriminate].
  destruct (data !! (start + 1)%nat) as [b1|] eqn:E1; [|discriminate].
  destruct (data !! (start + 2)%nat) as [b2|] eqn:E2; [|discriminate].
  destruct (data !! (start + 3)%nat) as [b3|] eqn:E3; [|discriminate].
  simpl in H. injection H as <-.
  pose proof (byte_code_bounds b0). pose proof (byte_code_bounds b1).
  pose proof (byte_code_bounds b2). pose proof (byte_code_bounds b3).
  split; [lia|].
  unfold chunk_length.
  rewrite <- (Z.add_0_r (Z.of_nat start)) at 1.
  rewrite !data_at_nat by lia.
  change (Z.to_nat 0) with 0%nat. change (Z.to_nat 1) with 1%nat.
  change (Z.to_nat 2) with 2%nat. change (Z.to_nat 3) with 3%nat.
  rewrite Nat.add_0_r, E0, E1, E2, E3. simpl fmap. simpl default.
  rewrite length_expression by assumption.
  unfold to_int32.
  destruct (Z.ltb_spec (byte_code b0 * 2 ^ 24 + byte_code b1 * 2 ^ 16
                        + byte_code b2 * 2 ^ 8 + byte_code b3) 2147483648).
  - rewrite Z.mod_small; lia.
  - rewrite <- (Z_mod_plus_full _ (-1)). rewrite Z.mod_small; lia.
Qed.

(** The name the code reads at a chunk start is the type tag. *)
Lemma chunk_type_spec (data : list byte) (start : nat) (tag : string) :
  type_tag data start = Some tag -> chunk_type data (Z.of_nat start) = tag.
Proof.
  unfold type_tag. intros H.
  destruct (data !! (start + 4)%nat) as [b4|] eqn:E4; [|discriminate].
  destruct (data !! (start + 5)%nat) as [b5|] eqn:E5; [|discriminate].
  destruct (data !! (start + 6)%nat) as [b6|] eqn:E6; [|discriminate].
  destruct (data !! (start + 7)%nat) as [b7|] eqn:E7; [|discriminate].
  simpl in H. injection H as <-.
  unfold chunk_type. rewrite !data_at_nat by lia.
  change (Z.to_nat 4) with 4%nat. change (Z.to_nat 5) with 5%nat.
  change (Z.to_nat 6) with 6%nat. change (Z.to_nat 7) with 7%nat.
  rewrite E4, E5, E6, E7. simpl fmap.
  unfold String_fromCharCode, fromCharCode1. simpl.
  now rewrite !append_cons, !append_nil, !ascii_of_byte_code.
Qed.

(** The walk of the specification ends on every buffer, for all values
    of the length fields: an unsigned length moves the offset forward. *)
Lemma chunk_stream_total (data : list byte) (start : nat) :
  exists cs : list Chunk, chunk_stream data start cs.
Proof.
  remember (length data - start)%nat as n eqn:Hn.
  revert start Hn. induction n as [n IH] using lt_wf_ind. intros start Hn.
  destruct (Nat.ltb_spec (length data) (start + 8)) as [Hend | Hroom].
  - exists []. now constructor.
  - destruct (lookup_lt_is_Some_2 data start) as [b0 E0]; [lia|].
    destruct (lookup_lt_is_Some_2 data (start + 1)) as [b1 E1]; [lia|].
    destruct (lookup_lt_is_Some_2 data (start + 2)) as [b2 E2]; [lia|].
    destruct (lookup_lt_is_Some_2 data (start + 3)) as [b3 E3]; [lia|].
    destruct (lookup_lt_is_Some_2 data (start + 4)) as [b4 E4]; [lia|].
    destruct (lookup_lt_is_Some_2 data (start + 5)) as [b5 E5]; [lia|].
    destruct (lookup_lt_is_Some_2 data (start + 6)) as [b6 E6]; [lia|].
    destruct (lookup_lt_is_Some_2 data (start + 7)) as [b7 E7]; [lia|].
    set (len := byte_code b0 * 2 ^ 24 + byte_code b1 * 2 ^ 16
                + byte_code b2 * 2 ^ 8 + byte_code b3).
    destruct (IH (length data - (start + (4 + 4 + Z.to_nat len + 4)))%nat
                ltac:(lia) (start + (4 + 4 + Z.to_nat len + 4))%nat eq_refl)
      as [rest Hrest].
    eexists.
    apply (stream_chunk data start len (string_of_list_byte [b4; b5; b6; b7])
             rest Hroom); [| |exact Hrest].
    + unfold uint32_be. rewrite E0, E1, E2, E3. reflexivity.
    + unfold type_tag. rewrite E4, E5, E6, E7. reflexivity.
Qed.

Lemma chunk_stream_functional (data : list byte) (start : nat) (cs cs' : list Chunk) :
  chunk_stream data start cs -> chunk_stream data start cs' -> cs = cs'.
Proof.
  intros H. revert cs'.
  induction H as [start Hend | start len tag rest Hroom Hlen Htag Hrest IH];
    intros cs' H'.
  - inversion H'; subst; [reflexivity | lia].
  - inversion H' as [| start' len' tag' rest' Hroom' Hlen' Htag' Hrest']; subst;
      [lia|].
    assert (len' = len) by congruence. assert (tag' = tag) by congruence.
    subst. f_equal. apply IH. exact Hrest'.
Qed.

(** On a chunk stream none of whose length fields reaches 2^31 the
    loop of [parsePng] is left after one turn per chunk, and it has
    recorded the chunks of the specification. *)
Lemma walk_stream (data : list byte) (start : nat) (cs : list Chunk) :
  chunk_stream data start cs ->
  Forall (fun c => size c < 2147483648) cs ->
  forall (acc : list Chunk) (fuel : nat),
    (length cs <= fuel)%nat ->
    exists stop : Z,
      walk fuel data {| w_chunks := acc; w_offset := Z.of_nat start |}
      = Some {| w_chunks := acc ++ cs; w_offset := stop |}.
Proof.
  intros H. induction H as [start Hend | start len tag rest Hroom Hlen Htag Hrest IH];
    intros Hsmall acc fuel Hfuel.
  - exists (Z.of_nat start). rewrite app_nil_r. apply walk_exit.
    unfold walk_step, data_length. simpl.
    destruct (Z.of_nat start <? Z.of_nat (length data)); [|reflexivity].
    destruct (Z.gtb_spec (Z.of_nat start + 8) (Z.of_nat (length data)));
      [reflexivity | lia].
  - apply Forall_cons in Hsmall. destruct Hsmall as [Hlt Hsmall]. simpl in Hlt.
    destruct fuel as [|fuel]; [simpl in Hfuel; lia|].
    destruct (chunk_length_spec data start len Hlen) as [Hrange Hcode].
    replace (len <? 2147483648) with true in Hcode by lia.
    destruct (IH Hsmall
                (acc ++ [{| name := tag; size := len; offset := Z.of_nat start |}])
                fuel ltac:(simpl in Hfuel; lia)) as [stop Hstop].
    exists stop. rewrite <- List.app_assoc in Hstop. simpl in Hstop.
    rewrite <- Hstop. apply walk_turn.
    unfold walk_step, data_length. simpl.
    destruct (Z.ltb_spec (Z.of_nat start) (Z.of_nat (length data))); [|lia].
    destruct (Z.gtb_spec (Z.of_nat start + 8) (Z.of_nat (length data))); [lia|].
    rewrite Hcode, (chunk_type_spec data start tag Htag).
    do 2 f_equal. lia.
Qed.

Section WithImageReader.
Context {builtins : Builtins} {exifLib : ExifLib}.

(** [parsePng] on such a stream: it returns, and its chunks are the
    chunks of the specification. *)
Lemma parsePng_stream (file : File) (cs : list Chunk) (fuel : nat) :
  chunk_stream (file_arrayBuffer file) 8 cs ->
  Forall (fun c => size c < 2147483648) cs ->
  (length cs <= fuel)%nat ->
  chunks <$> parsePng fuel file = Some (Some cs).
Proof.
  intros Hstream Hsmall Hfuel.
  destruct (walk_stream _ _ _ Hstream Hsmall [] fuel Hfuel) as [stop Hstop].
  unfold parsePng. change (Z.of_nat 8) with 8 in Hstop. rewrite Hstop.
  reflexivity.
Qed.

End WithImageReader.

(** The stream of the specification on the buffer with the length
    field 0xFFFFFFF4: one chunk of size 4294967284, and the end. *)
Lemma looping_png_stream :
  chunk_stream Sample.looping_png 8
    [{| name := "IDAT"; size := 4294967284; offset := 8 |}].
Proof.
  apply (stream_chunk Sample.looping_png 8 4294967284 "IDAT" []);
    [simpl; lia | reflexivity | reflexivity |].
  apply stream_end. change (length Sample.looping_png) with 16%nat. lia.
Qed.

End PngStream.

(** ** The chunk walk on chunk headers with the top bit set *)

Section PngChunks.
Context {builtins : Builtins} {exifLib : ExifLib}.

Lemma parsePng_chunks (fuel : nat) (file : File) (w : Walk) :
  walk fuel (file_arrayBuffer file) {| w_chunks := []; w_offset := 8 |} = Some w ->
  chunks <$> parsePng fuel file = Some (Some (w_chunks w)).
Proof. intros H. unfold parsePng. rewrite H. reflexivity. Qed.

Lemma parsePng_unfinished (fuel : nat) (file : File) :
  walk fuel (file_arrayBuffer file) {| w_chunks := []; w_offset := 8 |} = None ->
  parsePng fuel file = None.
Proof. intros H. unfold parsePng. rewrite H. reflexivity. Qed.

(** The walk over the signature and one [IEND] chunk of length 0. *)
Lemma walk_iend (fuel : nat) (c1 c2 c3 c4 : byte) :
  walk (S fuel) (Sample.iend_png [c1; c2; c3; c4])
       {| w_chunks := []; w_offset := 8 |}
  = Some {| w_chunks := [{| name := "IEND"; size := 0; offset := 8 |}];
            w_offset := 20 |}.
Proof.
  rewrite (walk_turn _ _
             {| w_chunks := [{| name := "IEND"; size := 0; offset := 8 |}];
                w_offset := 20 |}) by reflexivity.
  apply walk_exit. reflexivity.
Qed.

(** The walk over a length field 0xFFFFFFFF. *)
Lemma walk_huge_length (fuel : nat) :
  walk (S fuel) Sample.huge_length_png {| w_chunks := []; w_offset := 8 |}
  = Some {| w_chunks := [{| name := "IDAT"; size := -1; offset := 8 |}];
            w_offset := 19 |}.
Proof.
  rewrite (walk_turn _ _
             {| w_chunks := [{| name := "IDAT"; size := -1; offset := 8 |}];
                w_offset := 19 |}) by reflexivity.
  apply walk_exit. reflexivity.
Qed.

(** C7. On the signature and one chunk header of length 0 and type
    [IEND] with its CRC, [parsePng] yields the one chunk
    [{name: "IEND", size: 0, offset: 8}].  The recorded size is the
    length field read as a signed 32-bit number, not as a [uint32]: on a
    length field 0xFFFFFFFF (4294967295) the recorded size is -1. *)
Theorem parsePng_chunk_size_signed :
  (forall (fuel : nat) (mime filename : string) (c1 c2 c3 c4 : byte),
     chunks <$> parsePng (S fuel)
                  (Sample.file mime filename (Sample.iend_png [c1; c2; c3; c4]))
     = Some (Some [{| name := "IEND"; size := 0; offset := 8 |}]))
  /\ (forall (fuel : nat) (mime filename : string),
        chunks <$> parsePng (S fuel)
                     (Sample.file mime filename Sample.huge_length_png)
        = Some (Some [{| name := "IDAT"; size := -1; offset := 8 |}]))
  /\ PngSpec.uint32_be Sample.huge_length_png 8 = Some 4294967295
  /\ PngSpec.type_tag Sample.huge_length_png 8 = Some "IDAT".
Proof.
  split; [|split; [|split; reflexivity]].
  - intros fuel mime filename c1 c2 c3 c4.
    apply parsePng_chunks with (w := {| w_chunks := _; w_offset := 20 |}).
    apply walk_iend.
  - intros fuel mime filename.
    apply parsePng_chunks with (w := {| w_chunks := _; w_offset := 19 |}).
    apply walk_huge_length.
Qed.

(** On a length field 0xFFFFFFF4 the chunk length is -12: a turn of
    the loop records a chunk and leaves the offset at 8. *)
Lemma walk_step_looping (cs : list Chunk) :
  walk_step Sample.looping_png {| w_chunks := cs; w_offset := 8 |}
  = Some {| w_chunks := cs ++ [{| name := "IDAT"; size := -12; offset := 8 |}];
            w_offset := 8 |}.
Proof. reflexivity. Qed.

Lemma walk_looping (fuel : nat) :
  forall cs : list Chunk,
    walk fuel Sample.looping_png {| w_chunks := cs; w_offset := 8 |} = None.
Proof.
  induction fuel as [|fuel IH]; intros cs.
  - exact (walk_out_of_fuel _ _ _ (walk_step_looping cs)).
  - rewrite (walk_turn _ _ _ _ (walk_step_looping cs)). apply IH.
Qed.

(** C1. The chunk walk does not terminate on every buffer: on the
    signature followed by a chunk header whose length field is
    0xFFFFFFF4 the length is read as -12, the offset stays at 8, and the
    loop is not left within any number of turns; [parsePng] returns
    nothing.  The walk of the specification, with the length read as a
    [uint32], records one chunk of size 4294967284 there and ends. *)
Theorem parsePng_walk_loops (fuel : nat) :
  walk fuel Sample.looping_png {| w_chunks := []; w_offset := 8 |} = None
  /\ (forall mime filename : string,
        parsePng fuel (Sample.file mime filename Sample.looping_png) = None)
  /\ PngSpec.uint32_be Sample.looping_png 8 = Some 4294967284
  /\ chunk_length Sample.looping_png 8 = -12
  /\ PngSpec.chunk_stream Sample.looping_png 8
       [{| name := "IDAT"; size := 4294967284; offset := 8 |}].
Proof.
  split; [apply walk_looping|]. split.
  - intros mime filename. apply parsePng_unfinished, walk_looping.
  - split; [reflexivity|]. split; [reflexivity | apply looping_png_stream].
Qed.

End PngChunks.

(** ** Dispatch *)

Section Suffixes.

Lemma substring_all (s : string) : String.substring 0 (String.length s) s = s.
Proof. induction s as [|a s IH]; simpl; [reflexivity | now rewrite IH]. Qed.

Lemma substring_split (s : string) :
  forall m : nat,
    (m <= String.length s)%nat ->
    s = String.substring 0 m s +:+ String.substring m (String.length s - m) s.
Proof.
  induction s as [|a s IH]; intros m Hm.
  - destruct m; reflexivity.
  - destruct m as [|m].
    + simpl. now rewrite substring_all.
    + simpl in Hm. simpl. rewrite append_cons. f_equal. apply IH. lia.
Qed.

(** [s.endsWith(suffix)] holds when [s] is some prefix followed by
    [suffix]. *)
Lemma endsWith_app (s suffix : string) :
  endsWith s suffix = true -> exists p : string, s = p +:+ suffix.
Proof.
  unfold endsWith. intros H. apply andb_true_iff in H. destruct H as [Hk He].
  apply Nat.leb_le in Hk. apply String.eqb_eq in He.
  set (k := String.length suffix) in *.
  exists (String.substring 0 (String.length s - k) s).
  rewrite <- He.
  pose proof (substring_split s (String.length s - k)) as Hsplit.
  replace (String.length s - (String.length s - k))%nat with k in Hsplit by lia.
  apply Hsplit. lia.
Qed.

(** Two suffixes of one string end with the same character. *)
Lemma endsWith_last (s suffix : string) :
  endsWith s suffix = true -> suffix <> "" ->
  last (list_ascii_of_string s) = last (list_ascii_of_string suffix).
Proof.
  intros H Hne. destruct (endsWith_app _ _ H) as [p ->].
  rewrite list_ascii_append.
  destruct suffix as [|a suffix]; [congruence|]. simpl.
  apply last_app_cons.
Qed.

Lemma endsWith_other (s suffix other : string) :
  endsWith s suffix = true -> suffix <> "" -> other <> "" ->
  last (list_ascii_of_string suffix) <> last (list_ascii_of_string other) ->
  endsWith s other = false.
Proof.
  intros H Hs Ho Hne. destruct (endsWith s other) eqn:E; [|reflexivity].
  apply endsWith_last in H; [|assumption].
  apply endsWith_last in E; [|assumption]. congruence.
Qed.

End Suffixes.

Section Dispatch.
Context {builtins : Builtins} {exifLib : ExifLib} {pdfLib : PdfLib}
        {zipLib : ZipLib} {domLib : DomLib}.

Ltac other_suffix H :=
  apply (endsWith_other _ _ _ H); [discriminate | discriminate | discriminate].

(** C2, as the code has it. [parseFile] tries the formats in the order
    JPEG, PNG, PDF, DOCX and takes the first whose MIME type is the
    declared one or whose extension ends the lower-cased file name.  So a
    declared MIME type of one of the four formats selects its parser
    unless the name has the extension of a format earlier in the order,
    which then wins: [image/jpeg] always selects the image parser;
    [image/png] selects the PNG parser unless the name ends in [.jpg] or
    [.jpeg]; [application/pdf] the PDF parser unless the name ends in
    [.jpg], [.jpeg] or [.png]; the DOCX type the DOCX parser unless the
    name ends in [.jpg], [.jpeg], [.png] or [.pdf].  In particular
    [image/png] with extension [.dat] selects the PNG parser, and no MIME
    type with extension [.pdf] selects the PDF parser. *)
Theorem parseFile_dispatch (fuel : nat) (file : File) :
  let name := toLowerCase (file_name file) in
  let jpeg_name := endsWith name ".jpg" || endsWith name ".jpeg" in
  (file_type file = "image/jpeg" -> parseFile fuel file = Some (parseImage file))
  /\ (file_type file = "image/png" ->
      parseFile fuel file
      = if jpeg_name then Some (parseImage file) else parsePng fuel file)
  /\ (file_type file = "application/pdf" ->
      parseFile fuel file
      = if jpeg_name then Some (parseImage file)
        else if endsWith name ".png" then parsePng fuel file
        else Some (parsePdf file))
  /\ (file_type file = DOCX_MIME ->
      parseFile fuel file
      = if jpeg_name then Some (parseImage file)
        else if endsWith name ".png" then parsePng fuel file
        else if endsWith name ".pdf" then Some (parsePdf file)
        else Some (parseDocx file))
  /\ (file_type file = "image/png" -> endsWith name ".dat" = true ->
      parseFile fuel file = parsePng fuel file)
  /\ (file_type file = "" -> endsWith name ".pdf" = true ->
      parseFile fuel file = Some (parsePdf file)).
Proof.
  intros name jpeg_name. unfold parseFile. fold name.
  repeat split.
  - intros ->. reflexivity.
  - intros ->. simpl. fold jpeg_name. now destruct jpeg_name.
  - intros ->. simpl. fold jpeg_name. destruct jpeg_name; [reflexivity|].
    now destruct (endsWith name ".png").
  - intros ->. simpl. fold jpeg_name. destruct jpeg_name; [reflexivity|].
    destruct (endsWith name ".png"); [reflexivity|].
    now destruct (endsWith name ".pdf").
  - intros -> H. simpl.
    assert (endsWith name ".jpg" = false) as -> by other_suffix H.
    assert (endsWith name ".jpeg" = false) as -> by other_suffix H.
    reflexivity.
  - intros -> H. simpl.
    assert (endsWith name ".jpg" = false) as -> by other_suffix H.
    assert (endsWith name ".jpeg" = false) as -> by other_suffix H.
    assert (endsWith name ".png" = false) as -> by other_suffix H.
    rewrite H. reflexivity.
Qed.

End Dispatch.

(** A PNG MIME type does not select the PNG parser when the name ends
    in [.jpg]: the image parser runs. *)
Lemma parseFile_png_mime_jpg_name :
  file_type (Sample.file "image/png" "photo.jpg" []) = "image/png"
  /\ fileType <$> parseFile (builtins := Sample.builtins) (exifLib := Sample.exifLib)
                    (pdfLib := Sample.pdfLib) (zipLib := Sample.zipLib [])
                    (domLib := Sample.domLib []) 0
                    (Sample.file "image/png" "photo.jpg" [])
     = Some "IMAGE"
  /\ fileType <$> parsePng (builtins := Sample.builtins) (exifLib := Sample.exifLib) 0
                    (Sample.file "image/png" "photo.jpg" [])
     = Some "PNG".
Proof. repeat split. Qed.

(** [image/png] with the name [scan.DAT], and no MIME type with the
    name [report.pdf]. *)
Lemma parseFile_dispatch_witness :
  parseFile (builtins := Sample.builtins) (exifLib := Sample.exifLib)
    (pdfLib := Sample.pdfLib) (zipLib := Sample.zipLib [])
    (domLib := Sample.domLib []) 0 (Sample.file "image/png" "scan.DAT" [])
  = parsePng (builtins := Sample.builtins) (exifLib := Sample.exifLib) 0
      (Sample.file "image/png" "scan.DAT" [])
  /\ parseFile (builtins := Sample.builtins) (exifLib := Sample.exifLib)
       (pdfLib := Sample.pdfLib) (zipLib := Sample.zipLib [])
       (domLib := Sample.domLib []) 0 (Sample.file "" "report.pdf" [])
     = Some (parsePdf (pdfLib := Sample.pdfLib) (Sample.file "" "report.pdf" [])).
Proof.
  split.
  - apply (parseFile_dispatch (builtins := Sample.builtins)
             (exifLib := Sample.exifLib) (pdfLib := Sample.pdfLib)
             (zipLib := Sample.zipLib []) (domLib := Sample.domLib []) 0
             (Sample.file "image/png" "scan.DAT" [])); reflexivity.
  - apply (parseFile_dispatch (builtins := Sample.builtins)
             (exifLib := Sample.exifLib) (pdfLib := Sample.pdfLib)
             (zipLib := Sample.zipLib []) (domLib := Sample.domLib []) 0
             (Sample.file "" "report.pdf" [])); reflexivity.
Defined.

(** ** The PDF parser *)

Section Pdf.
Context {pdfLib : PdfLib}.

(** The warnings of the two substring heuristics on a buffer. *)
Lemma parsePdf_loaded (file : File) :
  pdf_success (file_arrayBuffer file) ->
  warnings (parsePdf file)
  = (if existsb mentions_script (extractStrings_default (file_arrayBuffer file))
     then [PDF_JAVASCRIPT_WARNING] else [])
    ++ (if existsb mentions_auto_action (extractStrings_default (file_arrayBuffer file))
        then [PDF_AUTO_ACTION_WARNING] else []).
Proof.
  intros (pdfDoc & Hload & Hget). unfold pdf_getters in Hget.
  repeat match goal with
         | H : Forall _ (_ :: _) |- _ =>
             apply Forall_cons in H; destruct H as [[? ?] H]
         end.
  unfold parsePdf, try_catch, parsePdf_body, mbind, Try_bind, call.
  rewrite Hload.
  repeat match goal with H : _ pdfDoc = inr _ |- _ => rewrite H; clear H end.
  unfold when, assign.
  destruct (existsb mentions_script _), (existsb mentions_auto_action _);
    reflexivity.
Qed.

Lemma parsePdf_not_loaded (file : File) (message : string) :
  PDFDocument_load (file_arrayBuffer file) = inl message ->
  warnings (parsePdf file) = [PDF_ERROR message]
  /\ metadata (parsePdf file) = ∅.
Proof.
  intros Hload. unfold parsePdf, try_catch, parsePdf_body, mbind, Try_bind, call.
  rewrite Hload. split; reflexivity.
Qed.

(** A failure of the document loader or of a getter is caught: the
    warnings are the failure's, and no metadata has been stored. *)
Lemma parsePdf_failure (file : File) (message0 : string) :
  pdf_failure (file_arrayBuffer file) message0 ->
  exists message : string,
    pdf_failure (file_arrayBuffer file) message
    /\ warnings (parsePdf file) = [PDF_ERROR message]
    /\ metadata (parsePdf file) = ∅.
Proof.
  intros [Hload | pdfDoc getter Hload Hin Hget].
  - exists message0. split; [now constructor | now apply parsePdf_not_loaded].
  - unfold parsePdf, try_catch, parsePdf_body, mbind, Try_bind, call.
    rewrite Hload.
    assert (Hfail : forall g m, In g pdf_getters -> g pdfDoc = inl m ->
                            pdf_failure (file_arrayBuffer file) m)
      by (intros g m Hg Hm; now apply (pdf_getter_failure _ _ pdfDoc g)).
    unfold pdf_getters in Hin, Hfail.
    repeat match goal with
           | |- context [match ?g pdfDoc with _ => _ end] =>
               let E := fresh "E" in
               destruct (g pdfDoc) as [m|?] eqn:E;
               [ exists m; split;
                 [ apply (Hfail g m); [simpl; tauto | exact E]
                 | split; reflexivity ]
               | ]
           end.
    exfalso. simpl in Hin.
    repeat destruct Hin as [<- | Hin]; congruence || contradiction.
Qed.

(** C3, as the code has it. [parsePdf] applies the script and
    auto-action heuristics inside the [try] block, after the document
    has loaded and its Info fields have been read.  When the document
    loads and the getters return, the warnings are exactly the
    embedded-JavaScript warning if an extracted string has
    [/JavaScript] or [/JS], followed by the automatic-action warning if
    one has [/OpenAction] or [/AA].  When the document does not load,
    the parse-failure warning is the only warning. *)
Theorem parsePdf_heuristics (file : File) :
  (pdf_success (file_arrayBuffer file) ->
   warnings (parsePdf file)
   = (if existsb mentions_script (extractStrings_default (file_arrayBuffer file))
      then [PDF_JAVASCRIPT_WARNING] else [])
     ++ (if existsb mentions_auto_action
               (extractStrings_default (file_arrayBuffer file))
         then [PDF_AUTO_ACTION_WARNING] else []))
  /\ (forall message : string,
        PDFDocument_load (file_arrayBuffer file) = inl message ->
        warnings (parsePdf file) = [PDF_ERROR message]).
Proof.
  split; [apply parsePdf_loaded|].
  intros message H. now apply parsePdf_not_loaded.
Qed.

End Pdf.

(** A buffer that holds [/JavaScript] and [/OpenAction] and is not a PDF
    document: both markers are among the extracted strings, and the
    parse-failure warning is the only warning. *)
Lemma parsePdf_unloaded_script :
  existsb mentions_script
    (extractStrings_default (bytes_of "/JavaScript /OpenAction")) = true
  /\ existsb mentions_auto_action
       (extractStrings_default (bytes_of "/JavaScript /OpenAction")) = true
  /\ warnings (parsePdf (pdfLib := Sample.pdfLib)
                 (Sample.file "application/pdf" "a.pdf"
                    (bytes_of "/JavaScript /OpenAction")))
     = [PDF_ERROR "No PDF header found"].
Proof. repeat split. Qed.

(** A buffer with the PDF header and both markers, and one without the
    header. *)
Lemma parsePdf_heuristics_witness :
  warnings (parsePdf (pdfLib := Sample.pdfLib)
              (Sample.file "application/pdf" "a.pdf"
                 (bytes_of "%PDF-1.4 /JavaScript /OpenAction")))
  = [PDF_JAVASCRIPT_WARNING; PDF_AUTO_ACTION_WARNING]
  /\ warnings (parsePdf (pdfLib := Sample.pdfLib)
                 (Sample.file "application/pdf" "a.pdf" (bytes_of "not a PDF")))
     = [PDF_ERROR "No PDF header found"].
Proof.
  split.
  - refine (proj1 (parsePdf_heuristics (pdfLib := Sample.pdfLib)
                     (Sample.file "application/pdf" "a.pdf"
                        (bytes_of "%PDF-1.4 /JavaScript /OpenAction"))) _).
    eexists. split; [reflexivity|].
    repeat constructor; eexists; reflexivity.
  - apply (parsePdf_heuristics (pdfLib := Sample.pdfLib)
             (Sample.file "application/pdf" "a.pdf" (bytes_of "not a PDF"))).
    reflexivity.
Defined.

(** ** The DOCX parser *)

Section Docx.
Context {builtins : Builtins} {zipLib : ZipLib} {domLib : DomLib}.

Lemma core_property (xmlDoc : XMLDocument) :
  js_get (JObj (core_properties xmlDoc)) "creator" = extract xmlDoc "dc:creator"
  /\ js_get (JObj (core_properties xmlDoc)) "created" = extract xmlDoc "dcterms:created"
  /\ js_get (JObj (core_properties xmlDoc)) "modified" = extract xmlDoc "dcterms:modified".
Proof. repeat split. Qed.

Lemma metadata_core (m : gmap string JsValue) (core : JsValue) :
  js_get (JObj (<["core" := core]> m)) "core" = core.
Proof. unfold js_get. now rewrite lookup_insert_eq. Qed.

(** Running [parseDocx]: the calls of the archive reader are taken one
    by one, in the order of the body. *)
Ltac docx_unfold :=
  cbv beta iota zeta delta
    [parseDocx try_catch parseDocx_body docx_core docx_app docx_custom
     mbind Try_bind mret Try_ret call assign vars when init_vars
     warnings metadata].

Ltac docx_step :=
  match goal with
  | |- context [match JSZip_loadAsync ?f with _ => _ end] =>
      let E := fresh "Hopen" in
      let archive := fresh "archive" in
      destruct (JSZip_loadAsync f) as [? | archive] eqn:E
  | |- context [match JSZip_file ?z ?p with _ => _ end] =>
      let E := fresh "Hentry" in destruct (JSZip_file z p) eqn:E
  | |- context [match ZipObject_async_text ?e with _ => _ end] =>
      let E := fresh "Htext" in destruct (ZipObject_async_text e) eqn:E
  | |- context [if ?b then _ else _] =>
      let E := fresh "Hcond" in destruct b eqn:E
  end; cbv beta iota zeta.

Ltac docx_run := docx_unfold; repeat docx_step.

Lemma docx_entry_cases (P : string -> Prop) :
  P "docProps/core.xml" -> P "docProps/app.xml" -> P "docProps/custom.xml" ->
  forall path : string, In path docx_entries -> P path.
Proof.
  intros H1 H2 H3 path Hin. simpl in Hin.
  destruct Hin as [<- | [<- | [<- | []]]]; assumption.
Qed.

(** A failure of the archive reader is caught: the last warning is the
    failure's. *)
Lemma parseDocx_failure (file : File) (message0 : string) :
  docx_failure file message0 ->
  exists message : string,
    docx_failure file message
    /\ last (warnings (parseDocx file)) = Some (DOCX_ERROR message).
Proof.
  intros Hfail.
  assert (Hentry : forall zip path entry m,
             JSZip_loadAsync file = inr zip ->
             In path docx_entries ->
             JSZip_file zip path = Some entry ->
             ZipObject_async_text entry = inl m ->
             docx_failure file m)
    by (intros zip path entry m; apply docx_entry_failure).
  docx_run;
    try (match goal with
         | H : JSZip_loadAsync file = inl ?m |- _ =>
             exists m; split; [apply docx_open_failure; exact H | reflexivity]
         | Ht : ZipObject_async_text ?e = inl ?m,
           Hf : JSZip_file ?z ?p = Some ?e |- _ =>
             exists m; split;
             [ apply (Hentry z p e m);
               [reflexivity | simpl; tauto | exact Hf | exact Ht]
             | reflexivity ]
         end).
  all: exfalso; destruct Hfail as [Hopen' | zip path entry Hopen' Hin Hfile Htext'];
    [ congruence | ].
  all: assert (zip = archive) by congruence; subst zip;
    revert path Hin entry Hfile Htext';
    apply (docx_entry_cases
             (fun path => forall entry, JSZip_file archive path = Some entry ->
                                        ZipObject_async_text entry = inl message0 ->
                                        False));
    intros; congruence.
Qed.

(** What [parseDocx] has stored under [metadata.core] stays, whatever
    happens after. *)
Lemma parseDocx_core_kept (file : File) (zip : JSZip) (entry : ZipObject)
    (text : string) :
  JSZip_loadAsync file = inr zip ->
  JSZip_file zip "docProps/core.xml" = Some entry ->
  ZipObject_async_text entry = inr text ->
  metadata (parseDocx file) !! "core"
  = Some (JObj (core_properties (DOMParser_parseFromString text))).
Proof.
  intros Hopen Hentry Htext. docx_unfold.
  rewrite Hopen. cbv beta iota zeta. rewrite Hentry. cbv beta iota zeta.
  rewrite Htext. cbv beta iota zeta.
  repeat docx_step; reflexivity.
Qed.

(** What it has stored under [metadata.app] stays as well. *)
Lemma parseDocx_app_kept (file : File) (zip : JSZip) (entry : ZipObject)
    (text : string) :
  JSZip_loadAsync file = inr zip ->
  (forall core : ZipObject,
     JSZip_file zip "docProps/core.xml" = Some core ->
     exists core_text : string, ZipObject_async_text core = inr core_text) ->
  JSZip_file zip "docProps/app.xml" = Some entry ->
  ZipObject_async_text entry = inr text ->
  metadata (parseDocx file) !! "app"
  = Some (JObj (app_properties (DOMParser_parseFromString text))).
Proof.
  intros Hopen Hcore Hentry Htext. docx_unfold.
  rewrite Hopen. cbv beta iota zeta.
  destruct (JSZip_file zip "docProps/core.xml") as [core|] eqn:Hc;
    cbv beta iota zeta.
  - destruct (Hcore core eq_refl) as [core_text Hct]. rewrite Hct.
    cbv beta iota zeta. rewrite Hentry. cbv beta iota zeta.
    rewrite Htext. cbv beta iota zeta.
    repeat docx_step; reflexivity.
  - rewrite Hentry. cbv beta iota zeta. rewrite Htext. cbv beta iota zeta.
    repeat docx_step; reflexivity.
Qed.

(** C8. For a DOCX package whose [docProps/core.xml] is read:
    [parseDocx] returns the creator of the document under
    [metadata.core.creator]; and whenever created and modified both
    parse as valid dates and created is later than modified, its
    warnings have the temporal-inconsistency warning, whether the
    document names a creator or not, and whatever the reads after it
    do.  (The empty string is no valid date.)  With creator [A],
    created [2020-01-02] and modified [2020-01-01] this is the
    end-to-end example. *)
Theorem parseDocx_temporal (file : File) (zip : JSZip) (entry : ZipObject)
    (text : string) :
  JSZip_loadAsync file = inr zip ->
  JSZip_file zip "docProps/core.xml" = Some entry ->
  ZipObject_async_text entry = inr text ->
  (forall creator : string,
     extract (DOMParser_parseFromString text) "dc:creator" = JStr creator ->
     js_get (js_get (JObj (metadata (parseDocx file))) "core") "creator"
     = JStr creator)
  /\ (forall (created modified : string) (t_created t_modified : Z),
        Date_parse "" = None ->
        extract (DOMParser_parseFromString text) "dcterms:created" = JStr created ->
        extract (DOMParser_parseFromString text) "dcterms:modified" = JStr modified ->
        Date_parse created = Some t_created ->
        Date_parse modified = Some t_modified ->
        t_created > t_modified ->
        In DOCX_TEMPORAL_WARNING (warnings (parseDocx file))).
Proof.
  intros Hopen Hentry Htext.
  split.
  - intros creator Hcreator.
    unfold js_get at 2.
    rewrite (parseDocx_core_kept file zip entry text Hopen Hentry Htext).
    simpl default.
    now rewrite (proj1 (core_property _)).
  - intros created modified t_created t_modified
      Hempty Hcreated Hmodified Hc Hm Hlater.
    assert (Hne : forall s t, Date_parse s = Some t -> truthy (JStr s) = true).
    { intros s t Hs. simpl. destruct (String.eqb_spec s ""); [|reflexivity].
      subst s. congruence. }
    docx_unfold.
    rewrite Hopen. cbv beta iota zeta. rewrite Hentry. cbv beta iota zeta.
    rewrite Htext. cbv beta iota zeta.
    unfold set_metadata_key at 1 2 3 4. unfold set_metadata at 1 2 3 4.
    cbv beta iota zeta delta [v_metadata].
    rewrite !metadata_core.
    destruct (core_property (DOMParser_parseFromString text)) as (_ & -> & ->).
    rewrite Hcreated, Hmodified.
    rewrite (Hne _ _ Hc), (Hne _ _ Hm).
    unfold Date_new. rewrite Hc, Hm. unfold Date_gt.
    replace (t_modified <? t_created) with true by lia.
    cbv beta iota zeta delta [andb].
    repeat docx_step; cbv beta iota zeta delta [push_warning v_warnings];
      apply in_or_app; simpl; tauto.
Qed.

End Docx.

(** The end-to-end example: a package whose [docProps/core.xml] has
    creator [A], created [2020-01-02] and modified [2020-01-01]. *)
Lemma parseDocx_temporal_witness :
  js_get
    (js_get
       (JObj (metadata
                (parseDocx (builtins := Sample.builtins)
                   (zipLib := Sample.zipLib [("docProps/core.xml", inr Sample.core_xml)])
                   (domLib := Sample.domLib Sample.documents)
                   (Sample.file DOCX_MIME "a.docx" [x50; x4b]))))
       "core")
    "creator"
  = JStr "A"
  /\ In DOCX_TEMPORAL_WARNING
       (warnings
          (parseDocx (builtins := Sample.builtins)
             (zipLib := Sample.zipLib [("docProps/core.xml", inr Sample.core_xml)])
             (domLib := Sample.domLib Sample.documents)
             (Sample.file DOCX_MIME "a.docx" [x50; x4b]))).
Proof.
  destruct (parseDocx_temporal (builtins := Sample.builtins)
              (zipLib := Sample.zipLib [("docProps/core.xml", inr Sample.core_xml)])
              (domLib := Sample.domLib Sample.documents)
              (Sample.file DOCX_MIME "a.docx" [x50; x4b])
              [("docProps/core.xml", inr Sample.core_xml)]
              (inr Sample.core_xml) Sample.core_xml
              eq_refl eq_refl eq_refl) as [Hcreator Htemporal].
  split.
  - apply (Hcreator "A"). reflexivity.
  - apply (Htemporal "2020-01-02" "2020-01-01" 1577923200000 1577836800000);
      reflexivity.
Defined.

(** ** Failures of the libraries are caught *)

Section Failures.
Context {builtins : Builtins} {pdfLib : PdfLib} {zipLib : ZipLib} {domLib : DomLib}.

(** C4. When the document loader, a getter, the archive reader or the
    read of an entry fails, [parsePdf] and [parseDocx] return a result
    all the same.  [parsePdf] returns the one warning of the failure and
    empty metadata, on every failure: the fields are stored by one
    assignment once all are read, so what the getters returned before a
    getter failed is not kept.  [parseDocx] returns warnings whose last
    one is the failure's, and the metadata stored before the failure:
    [metadata.core] when [docProps/core.xml] was read, [metadata.app]
    when [docProps/app.xml] was read after it.  In both, the result
    holds the metadata as the [try] block left them at the throw, and
    its warnings with the failure's added. *)
Theorem parsers_catch_failures (file : File) :
  (forall message0 : string,
     pdf_failure (file_arrayBuffer file) message0 ->
     exists message : string,
       pdf_failure (file_arrayBuffer file) message
       /\ warnings (parsePdf file) = [PDF_ERROR message]
       /\ metadata (parsePdf file) = ∅)
  /\ (forall message0 : string,
        docx_failure file message0 ->
        exists message : string,
          docx_failure file message
          /\ last (warnings (parseDocx file)) = Some (DOCX_ERROR message))
  /\ (forall (zip : JSZip) (entry : ZipObject) (text : string),
        JSZip_loadAsync file = inr zip ->
        JSZip_file zip "docProps/core.xml" = Some entry ->
        ZipObject_async_text entry = inr text ->
        metadata (parseDocx file) !! "core"
        = Some (JObj (core_properties (DOMParser_parseFromString text))))
  /\ (forall (zip : JSZip) (entry : ZipObject) (text : string),
        JSZip_loadAsync file = inr zip ->
        (forall core : ZipObject,
           JSZip_file zip "docProps/core.xml" = Some core ->
           exists core_text : string, ZipObject_async_text core = inr core_text) ->
        JSZip_file zip "docProps/app.xml" = Some entry ->
        ZipObject_async_text entry = inr text ->
        metadata (parseDocx file) !! "app"
        = Some (JObj (app_properties (DOMParser_parseFromString text))))
  /\ (forall (st : Vars) (message : string),
        parsePdf_body (file_arrayBuffer file) init_vars = (st, inl message) ->
        metadata (parsePdf file) = v_metadata st
        /\ warnings (parsePdf file) = v_warnings st ++ [PDF_ERROR message])
  /\ (forall (st : Vars) (message : string),
        parseDocx_body file init_vars = (st, inl message) ->
        metadata (parseDocx file) = v_metadata st
        /\ warnings (parseDocx file) = v_warnings st ++ [DOCX_ERROR message]
        /\ xmlDump (parseDocx file) = Some (v_xmlDump st)).
Proof.
  split; [|split; [|split; [|split; [|split]]]].
  - apply parsePdf_failure.
  - apply parseDocx_failure.
  - apply parseDocx_core_kept.
  - apply parseDocx_app_kept.
  - intros st message H. unfold parsePdf, try_catch. rewrite H. now split.
  - intros st message H. unfold parseDocx, try_catch. rewrite H. now repeat split.
Qed.

End Failures.

(** A buffer that is no PDF document; and a package whose
    [docProps/core.xml] is read and whose [docProps/app.xml] is
    corrupt. *)
Lemma parsers_catch_failures_witness :
  (exists message : string,
     pdf_failure (pdfLib := Sample.pdfLib) (bytes_of "not a PDF") message
     /\ warnings (parsePdf (pdfLib := Sample.pdfLib)
                    (Sample.file "application/pdf" "a.pdf" (bytes_of "not a PDF")))
        = [PDF_ERROR message]
     /\ metadata (parsePdf (pdfLib := Sample.pdfLib)
                    (Sample.file "application/pdf" "a.pdf" (bytes_of "not a PDF")))
        = ∅)
  /\ (exists message : string,
        docx_failure
          (zipLib := Sample.zipLib
                       [("docProps/core.xml", inr Sample.core_xml);
                        ("docProps/app.xml", inl "Corrupted zip : CRC32 mismatch")])
          (Sample.file DOCX_MIME "a.docx" [x50; x4b]) message
        /\ last (warnings
                   (parseDocx (builtins := Sample.builtins)
                      (zipLib := Sample.zipLib
                                   [("docProps/core.xml", inr Sample.core_xml);
                                    ("docProps/app.xml",
                                     inl "Corrupted zip : CRC32 mismatch")])
                      (domLib := Sample.domLib Sample.documents)
                      (Sample.file DOCX_MIME "a.docx" [x50; x4b])))
           = Some (DOCX_ERROR message))
  /\ metadata
       (parseDocx (builtins := Sample.builtins)
          (zipLib := Sample.zipLib
                       [("docProps/core.xml", inr Sample.core_xml);
                        ("docProps/app.xml", inl "Corrupted zip : CRC32 mismatch")])
          (domLib := Sample.domLib Sample.documents)
          (Sample.file DOCX_MIME "a.docx" [x50; x4b])) !! "core"
     = Some (JObj (core_properties (domLib := Sample.domLib Sample.documents)
                     (Sample.core_xml_elements))).
Proof.
  split; [|split].
  - apply (proj1 (parsers_catch_failures (builtins := Sample.builtins)
                    (pdfLib := Sample.pdfLib) (zipLib := Sample.zipLib [])
                    (domLib := Sample.domLib [])
                    (Sample.file "application/pdf" "a.pdf" (bytes_of "not a PDF")))
             "No PDF header found").
    apply pdf_load_failure. reflexivity.
  - apply (proj1 (proj2 (parsers_catch_failures (builtins := Sample.builtins)
             (pdfLib := Sample.pdfLib)
             (zipLib := Sample.zipLib
                          [("docProps/core.xml", inr Sample.core_xml);
                           ("docProps/app.xml", inl "Corrupted zip : CRC32 mismatch")])
             (domLib := Sample.domLib Sample.documents)
             (Sample.file DOCX_MIME "a.docx" [x50; x4b])))
             "Corrupted zip : CRC32 mismatch").
    apply (docx_entry_failure
             (zipLib := Sample.zipLib
                          [("docProps/core.xml", inr Sample.core_xml);
                           ("docProps/app.xml", inl "Corrupted zip : CRC32 mismatch")])
             _ _
             [("docProps/core.xml", inr Sample.core_xml);
              ("docProps/app.xml", inl "Corrupted zip : CRC32 mismatch")]
             "docProps/app.xml" (inl "Corrupted zip : CRC32 mismatch"));
      try reflexivity.
    simpl. tauto.
  - apply (proj1 (proj2 (proj2
             (parsers_catch_failures (builtins := Sample.builtins)
                (pdfLib := Sample.pdfLib)
                (zipLib := Sample.zipLib
                             [("docProps/core.xml", inr Sample.core_xml);
                              ("docProps/app.xml", inl "Corrupted zip : CRC32 mismatch")])
                (domLib := Sample.domLib Sample.documents)
                (Sample.file DOCX_MIME "a.docx" [x50; x4b]))))
             [("docProps/core.xml", inr Sample.core_xml);
              ("docProps/app.xml", inl "Corrupted zip : CRC32 mismatch")]
             (inr Sample.core_xml) Sample.core_xml); reflexivity.
Defined.

(** A PDF document that loads, whose page count and title are read,
    and whose creation date then fails to be read: neither the page
    count nor the title is in the metadata of the result, which are
    empty. *)
Lemma parsePdf_partial_metadata_lost :
  PDFDocument_load (PdfLib := Sample.damagedPdfLib) (bytes_of "%PDF-1.7")
  = inr (bytes_of "%PDF-1.7")
  /\ getPageCount (PdfLib := Sample.damagedPdfLib) (bytes_of "%PDF-1.7")
     = inr (JNum 3)
  /\ getTitle (PdfLib := Sample.damagedPdfLib) (bytes_of "%PDF-1.7")
     = inr (JStr "Report")
  /\ metadata (parsePdf (pdfLib := Sample.damagedPdfLib)
                 (Sample.file "application/pdf" "report.pdf" (bytes_of "%PDF-1.7")))
     = ∅
  /\ metadata (parsePdf (pdfLib := Sample.damagedPdfLib)
                 (Sample.file "application/pdf" "report.pdf" (bytes_of "%PDF-1.7")))
     !! "title" = None
  /\ warnings (parsePdf (pdfLib := Sample.damagedPdfLib)
                 (Sample.file "application/pdf" "report.pdf" (bytes_of "%PDF-1.7")))
     = [PDF_ERROR
          "Expected instance of PDFString or PDFHexString, but got instance of PDFName"].
Proof. repeat split. Qed.

(** * Further properties *)

(** ** The string extractor: what it returns, and how it composes *)

Section StringExtractorMore.
Import StringExtractorSpec.

Local Abbreviation printable_byte := (fun b : byte => printable (byte_code b) = true).

(** A non-printable byte cuts the runs of a buffer in two. *)
Lemma runs_cut (a b : list byte) (sep : byte) :
  printable (byte_code sep) = false ->
  runs (a ++ sep :: b) = runs a ++ runs b.
Proof.
  intros Hsep. induction a as [|x a IH]; simpl.
  - now rewrite Hsep.
  - rewrite IH. destruct (printable (byte_code x)); [|reflexivity].
    destruct (runs_nonempty a) as (r & rs & ->). reflexivity.
Qed.

(** A buffer of printable bytes is one run. *)
Lemma runs_printable_buffer (r : list byte) :
  Forall printable_byte r -> runs r = [r].
Proof.
  induction 1 as [|b r Hb _ IH]; simpl; [reflexivity|].
  now rewrite Hb, IH.
Qed.

(** The first run is a prefix of the buffer, up to the first cut. *)
Lemma runs_head (bytes r0 : list byte) (rs : list (list byte)) :
  runs bytes = r0 :: rs ->
  exists post : list byte,
    bytes = r0 ++ post /\ Forall printable_byte r0 /\ run_boundary (head post).
Proof.
  revert r0 rs. induction bytes as [|b rest IH]; intros r0 rs H; simpl in H.
  - injection H as <- <-. exists []. repeat split. constructor.
  - destruct (printable (byte_code b)) eqn:Hb.
    + destruct (runs rest) as [|r0' rs'] eqn:E;
        [destruct (runs_nonempty rest) as (? & ? & ?); congruence|].
      simpl in H. injection H as <- <-.
      destruct (IH r0' rs' eq_refl) as (post & -> & Hp & Hend).
      exists post. repeat split; [now constructor | exact Hend].
    + injection H as <- <-. exists (b :: rest). repeat split; [constructor | exact Hb].
Qed.

(** A later run sits after a non-printable byte. *)
Lemma runs_tail (bytes r : list byte) :
  In r (tail (runs bytes)) ->
  exists (pre post : list byte) (sep : byte),
    bytes = (pre ++ [sep]) ++ r ++ post
    /\ printable (byte_code sep) = false
    /\ Forall printable_byte r /\ run_boundary (head post).
Proof.
  induction bytes as [|b rest IH]; simpl; [tauto|].
  destruct (printable (byte_code b)) eqn:Hb.
  - destruct (runs rest) as [|r0 rs] eqn:E;
      [destruct (runs_nonempty rest) as (? & ? & ?); congruence|].
    simpl. intros Hin. destruct (IH Hin) as (pre & post & sep & -> & Hsep & Hr & Hend).
    exists (b :: pre), post, sep. repeat split; assumption.
  - simpl. intros Hin.
    destruct (runs rest) as [|r0 rs] eqn:E; [destruct Hin|].
    destruct Hin as [<- | Hin].
    + destruct (runs_head rest r0 rs E) as (post & -> & Hr & Hend).
      exists [], post, b. repeat split; assumption.
    + destruct (IH Hin) as (pre & post & sep & -> & Hsep & Hr & Hend).
      exists (b :: pre), post, sep. repeat split; assumption.
Qed.

Lemma runs_maximal (bytes r : list byte) :
  In r (runs bytes) -> exists pre post : list byte, maximal_run bytes pre r post.
Proof.
  intros Hin. destruct (runs bytes) as [|r0 rs] eqn:E; [destruct Hin|].
  destruct Hin as [<- | Hin].
  - destruct (runs_head bytes r0 rs E) as (post & -> & Hr & Hend).
    exists [], post. repeat split; assumption.
  - assert (Ht : In r (tail (runs bytes))) by (rewrite E; exact Hin).
    destruct (runs_tail bytes r Ht) as (pre & post & sep & -> & Hsep & Hr & Hend).
    exists (pre ++ [sep]), post. repeat split; try assumption.
    rewrite last_snoc. exact Hsep.
Qed.

Lemma maximal_run_in_runs (bytes pre r post : list byte) :
  maximal_run bytes pre r post -> In r (runs bytes).
Proof.
  intros (-> & Hr & Hpre & Hpost).
  assert (Hin : In r (runs (r ++ post))).
  { destruct post as [|sep post]; simpl in Hpost.
    - rewrite app_nil_r, (runs_printable_buffer r Hr). now left.
    - rewrite (runs_cut r post sep Hpost), (runs_printable_buffer r Hr). now left. }
  destruct pre as [|x pre _] using rev_ind; [exact Hin|].
  rewrite last_snoc in Hpre. simpl in Hpre.
  rewrite <- List.app_assoc. simpl. rewrite (runs_cut pre _ x Hpre).
  apply in_or_app. now right.
Qed.

(** [extractStrings] returns exactly the maximal runs of printable
    bytes of the buffer that have at least [minLength] bytes, each as
    the string of its bytes. *)
Theorem extractStrings_maximal_runs (buffer : list byte) (minLength : Z) (s : string) :
  In s (extractStrings buffer minLength)
  <-> exists pre r post : list byte,
        maximal_run buffer pre r post
        /\ minLength <= Z.of_nat (length r)
        /\ s = string_of_list_byte r.
Proof.
  rewrite extractStrings_runs. unfold extractPrintableStrings. split.
  - intros H. apply in_map_iff in H. destruct H as (r & <- & Hr).
    apply filter_In in Hr. destruct Hr as [Hr Hlong].
    destruct (runs_maximal buffer r Hr) as (pre & post & Hmax).
    exists pre, r, post. split; [exact Hmax | split; [|reflexivity]].
    unfold long_enough in Hlong. lia.
  - intros (pre & r & post & Hmax & Hlen & ->).
    apply in_map_iff. exists r. split; [reflexivity|].
    apply filter_In. split; [exact (maximal_run_in_runs _ _ _ _ Hmax)|].
    unfold long_enough. lia.
Qed.

(** The strings of a buffer cut by a non-printable byte are the
    strings of the part before it followed by the strings of the part
    after it. *)
Theorem extractStrings_cut (a b : list byte) (sep : byte) (minLength : Z) :
  printable (byte_code sep) = false ->
  extractStrings (a ++ sep :: b) minLength
  = extractStrings a minLength ++ extractStrings b minLength.
Proof.
  intros Hsep. rewrite !extractStrings_runs. unfold extractPrintableStrings.
  now rewrite (runs_cut a b sep Hsep), List.filter_app, map_app.
Qed.

Lemma extractStrings_cut_witness :
  extractStrings (bytes_of "abcd" ++ x00 :: bytes_of "efgh") 4
  = extractStrings (bytes_of "abcd") 4 ++ extractStrings (bytes_of "efgh") 4.
Proof. apply (extractStrings_cut (bytes_of "abcd") (bytes_of "efgh") x00 4). reflexivity. Defined.

(** Raising [minLength] only filters: the strings for a larger
    [minLength] are those for a smaller one that are long enough, in
    the same order. *)
Theorem extractStrings_raise_minLength (buffer : list byte) (low high : Z) :
  low <= high ->
  extractStrings buffer high
  = List.filter (fun s => high <=? Z.of_nat (String.length s))
      (extractStrings buffer low).
Proof.
  intros Hle. rewrite !extractStrings_runs. unfold extractPrintableStrings.
  induction (runs buffer) as [|r rs IH]; [reflexivity|].
  cbn [List.filter].
  destruct (long_enough high r) eqn:Eh, (long_enough low r) eqn:El;
    unfold long_enough in Eh, El; try lia;
    cbn [map List.filter]; rewrite ?run_string_length, ?Eh; rewrite ?IH;
    reflexivity.
Qed.

Lemma extractStrings_raise_minLength_witness :
  extractStrings (bytes_of "ab" ++ x00 :: bytes_of "cdefg") 4
  = List.filter (fun s => 4 <=? Z.of_nat (String.length s))
      (extractStrings (bytes_of "ab" ++ x00 :: bytes_of "cdefg") 2).
Proof.
  apply (extractStrings_raise_minLength
           (bytes_of "ab" ++ x00 :: bytes_of "cdefg") 2 4). lia.
Defined.

End StringExtractorMore.

(** ** Markers in a buffer are found by the string extractor *)

Section Markers.
Import StringExtractorSpec.

Lemma append_assoc (a b c : string) : (a +:+ b) +:+ c = a +:+ (b +:+ c).
Proof.
  induction a as [|x a IH]; [reflexivity|].
  now rewrite !append_cons, IH.
Qed.

Lemma startsWith_app (p rest : string) : startsWith (p +:+ rest) p = true.
Proof.
  induction p as [|c p IH]; [now destruct rest|].
  rewrite append_cons. simpl. now rewrite Ascii.eqb_refl, IH.
Qed.

Lemma startsWith_spec (s p : string) :
  startsWith s p = true -> exists rest : string, s = p +:+ rest.
Proof.
  revert s. induction p as [|c p IH]; intros s H.
  - exists s. reflexivity.
  - destruct s as [|a s]; [discriminate|]. simpl in H.
    apply andb_true_iff in H. destruct H as [Hc Hp].
    apply Ascii.eqb_eq in Hc. subst a.
    destruct (IH s Hp) as [rest ->]. exists rest. now rewrite append_cons.
Qed.

(** [s.includes(k)] holds exactly when [k] occurs in [s]. *)
Lemma includes_spec (s k : string) :
  includes s k = true <-> exists a b : string, s = a +:+ k +:+ b.
Proof.
  split.
  - induction s as [|c s IH]; intros H.
    + change (startsWith "" k || false = true) in H.
      rewrite orb_false_r in H. destruct (startsWith_spec _ _ H) as [b Hb].
      exists "", b. exact Hb.
    + change (startsWith (String c s) k || includes s k = true) in H.
      apply orb_true_iff in H. destruct H as [H | H].
      * destruct (startsWith_spec _ _ H) as [b Hb]. exists "", b. exact Hb.
      * destruct (IH H) as (a & b & ->). exists (String c a), b.
        now rewrite append_cons.
  - intros (a & b & ->). induction a as [|c a IH].
    + rewrite append_nil.
      assert (H := startsWith_app k b).
      destruct (k +:+ b); unfold includes; fold includes; now rewrite H.
    + rewrite append_cons.
      change (startsWith (String c (a +:+ k +:+ b)) k
              || includes (a +:+ k +:+ b) k = true).
      rewrite IH. apply orb_true_r.
Qed.

Lemma includes_trans (s m k : string) :
  includes s m = true -> includes m k = true -> includes s k = true.
Proof.
  rewrite !includes_spec. intros (a & b & ->) (a' & b' & ->).
  exists (a +:+ a'), (b' +:+ b). now rewrite !append_assoc.
Qed.

(** Printable bytes that stand together in a buffer stand together in
    one of its runs. *)
Lemma runs_contain (pre m post : list byte) :
  Forall (fun b => printable (byte_code b) = true) m ->
  exists r a b : list byte, In r (runs (pre ++ m ++ post)) /\ r = a ++ m ++ b.
Proof.
  intros Hm. induction pre as [|x pre IH].
  - simpl.
    assert (exists b rs, runs (m ++ post) = (m ++ b) :: rs) as (b & rs & E).
    { induction Hm as [|y m Hy _ IHm]; simpl.
      - destruct (runs_nonempty post) as (r & rs & ->). eauto.
      - rewrite Hy. destruct IHm as (b & rs & ->). simpl. eauto. }
    exists (m ++ b), [], b. rewrite E. split; [now left | reflexivity].
  - destruct IH as (r & a & b & Hin & ->). simpl.
    destruct (printable (byte_code x)).
    + destruct (runs (pre ++ m ++ post)) as [|r0 rs]; [destruct Hin|].
      destruct Hin as [-> | Hin]; simpl.
      * exists (x :: a ++ m ++ b), (x :: a), b. split; [now left | reflexivity].
      * exists (a ++ m ++ b), a, b. split; [now right | reflexivity].
    + exists (a ++ m ++ b), a, b. split; [now right | reflexivity].
Qed.

Lemma extractStrings_contain (pre m post : list byte) (minLength : Z) :
  Forall (fun b => printable (byte_code b) = true) m ->
  minLength <= Z.of_nat (length m) ->
  exists s : string,
    In s (extractStrings (pre ++ m ++ post) minLength)
    /\ includes s (string_of_list_byte m) = true.
Proof.
  intros Hm Hlen. destruct (runs_contain pre m post Hm) as (r & a & b & Hin & ->).
  exists (run_string (a ++ m ++ b)). split.
  - rewrite extractStrings_runs. unfold extractPrintableStrings.
    apply in_map. apply filter_In. split; [exact Hin|].
    unfold long_enough. apply Z.leb_le. rewrite !length_app. lia.
  - rewrite !run_string_app. apply includes_spec.
    exists (run_string a), (run_string b). reflexivity.
Qed.

(** Printable bytes that stand together in a buffer, at least
    [minLength] of them, are part of one of the strings
    [extractStrings] returns, wherever they stand. *)
Theorem extractStrings_finds (pre m post : list byte) (minLength : Z) :
  Forall (fun b => printable (byte_code b) = true) m ->
  minLength <= Z.of_nat (length m) ->
  exists s : string,
    In s (extractStrings (pre ++ m ++ post) minLength)
    /\ includes s (string_of_list_byte m) = true.
Proof. apply extractStrings_contain. Qed.

Lemma extractStrings_finds_witness :
  exists s : string,
    In s (extractStrings ([x00; x41] ++ bytes_of "/JS " ++ [x42; xff]) 4)
    /\ includes s (string_of_list_byte (bytes_of "/JS ")) = true.
Proof.
  apply (extractStrings_finds [x00; x41] (bytes_of "/JS ") [x42; xff] 4).
  - repeat constructor.
  - simpl. lia.
Defined.

End Markers.

Section PdfMarkers.
Context {pdfLib : PdfLib}.

(** When the document loads and its fields are read, [parsePdf] warns
    of a script or an automatic action wherever its marker stands in the
    file, as long as the marker is among four or more printable bytes
    that stand together ([/JavaScript] and [/OpenAction] always are;
    [/JS] and [/AA] are with one printable byte next to them). *)
Theorem parsePdf_finds_markers (file : File) (pre m post : list byte) :
  pdf_success (file_arrayBuffer file) ->
  file_arrayBuffer file = pre ++ m ++ post ->
  Forall (fun b => printable (byte_code b) = true) m ->
  (4 <= length m)%nat ->
  (mentions_script (string_of_list_byte m) = true ->
   In PDF_JAVASCRIPT_WARNING (warnings (parsePdf file)))
  /\ (mentions_auto_action (string_of_list_byte m) = true ->
      In PDF_AUTO_ACTION_WARNING (warnings (parsePdf file))).
Proof.
  intros Hok Hbuf Hm Hlen. rewrite (parsePdf_loaded file Hok).
  destruct (extractStrings_contain pre m post 4 Hm ltac:(lia)) as (s & Hin & Hs).
  rewrite <- Hbuf in Hin. fold (extractStrings_default (file_arrayBuffer file)) in Hin.
  split; intros Hmark.
  - assert (existsb mentions_script (extractStrings_default (file_arrayBuffer file))
            = true) as ->.
    { apply existsb_exists. exists s. split; [exact Hin|].
      unfold mentions_script in *. apply orb_true_iff in Hmark.
      apply orb_true_iff. destruct Hmark as [H | H];
        [left | right]; exact (includes_trans _ _ _ Hs H). }
    apply in_or_app. left. now left.
  - assert (existsb mentions_auto_action
              (extractStrings_default (file_arrayBuffer file)) = true) as ->.
    { apply existsb_exists. exists s. split; [exact Hin|].
      unfold mentions_auto_action in *. apply orb_true_iff in Hmark.
      apply orb_true_iff. destruct Hmark as [H | H];
        [left | right]; exact (includes_trans _ _ _ Hs H). }
    apply in_or_app. right. now left.
Qed.

End PdfMarkers.

Lemma parsePdf_finds_markers_witness :
  In PDF_JAVASCRIPT_WARNING
    (warnings (parsePdf (pdfLib := Sample.pdfLib)
                 (Sample.file "application/pdf" "a.pdf"
                    (bytes_of "%PDF-1.4" ++ [x00] ++ bytes_of "/JS " ++ [xff]))))
  /\ In PDF_AUTO_ACTION_WARNING
       (warnings (parsePdf (pdfLib := Sample.pdfLib)
                    (Sample.file "application/pdf" "a.pdf"
                       (bytes_of "%PDF-1.4" ++ [x00] ++ bytes_of "/AA<" ++ [xff])))).
Proof.
  split.
  - destruct (parsePdf_finds_markers (pdfLib := Sample.pdfLib)
                (Sample.file "application/pdf" "a.pdf"
                   (bytes_of "%PDF-1.4" ++ [x00] ++ bytes_of "/JS " ++ [xff]))
                (bytes_of "%PDF-1.4" ++ [x00]) (bytes_of "/JS ") [xff])
      as [H _].
    + eexists. split; [reflexivity|]. repeat constructor; eexists; reflexivity.
    + reflexivity.
    + repeat constructor.
    + simpl. lia.
    + apply H. reflexivity.
  - destruct (parsePdf_finds_markers (pdfLib := Sample.pdfLib)
                (Sample.file "application/pdf" "a.pdf"
                   (bytes_of "%PDF-1.4" ++ [x00] ++ bytes_of "/AA<" ++ [xff]))
                (bytes_of "%PDF-1.4" ++ [x00]) (bytes_of "/AA<") [xff])
      as [_ H].
    + eexists. split; [reflexivity|]. repeat constructor; eexists; reflexivity.
    + reflexivity.
    + repeat constructor.
    + simpl. lia.
    + apply H. reflexivity.
Defined.

(** ** The histogram of [getEntropy] *)

Section Histogram.

(** The occurrences of the byte value [i] in a buffer. *)
Local Abbreviation occurrences i data :=
  (length (List.filter (fun b : byte => (Z.to_nat (byte_code b) =? i)%nat) data)).

Lemma count_bytes (data : list byte) :
  forall (frequencies : list nat) (i : nat),
    foldl count_byte frequencies data !! i
    = (fun c => (c + occurrences i data)%nat) <$> frequencies !! i.
Proof.
  induction data as [|b rest IH]; intros frequencies i.
  - simpl. destruct (frequencies !! i); simpl; [f_equal; lia | reflexivity].
  - cbn [foldl]. rewrite IH. unfold count_byte. rewrite list_lookup_alter.
    cbn [List.filter].
    destruct (Nat.eqb_spec (Z.to_nat (byte_code b)) i) as [-> | Hne].
    + rewrite decide_True by reflexivity.
      destruct (frequencies !! i); simpl; [f_equal; lia | reflexivity].
    + rewrite decide_False by exact Hne. reflexivity.
Qed.

Lemma histogram_length (data : list byte) : length (histogram data) = 256%nat.
Proof.
  unfold histogram.
  assert (forall frequencies, length (foldl count_byte frequencies data)
                              = length frequencies) as ->.
  { induction data as [|b rest IH]; intros frequencies; [reflexivity|].
    cbn [foldl]. rewrite IH. unfold count_byte. apply length_alter. }
  apply length_replicate.
Qed.

Lemma histogram_lookup (data : list byte) (i : nat) :
  (i < 256)%nat -> histogram data !! i = Some (occurrences i data).
Proof.
  intros Hi. unfold histogram. rewrite count_bytes.
  rewrite lookup_replicate_2 by exact Hi. reflexivity.
Qed.

(** The first loop of [getEntropy] counts: the histogram has 256
    buckets, bucket [i] holds the number of bytes of value [i], and the
    buckets add up to the length of the buffer. *)
Theorem histogram_counts (data : list byte) :
  length (histogram data) = 256%nat
  /\ (forall i : nat,
        (i < 256)%nat -> histogram data !! i = Some (occurrences i data))
  /\ sum_list (histogram data) = length data.
Proof.
  split; [apply histogram_length|]. split.
  - apply histogram_lookup.
  - pose proof (histogram_sum data (replicate 256 0%nat)) as Hs.
    rewrite length_replicate in Hs. specialize (Hs eq_refl).
    fold (histogram data) in Hs. rewrite Hs. reflexivity.
Qed.

Lemma occurrences_permutation (i : nat) (a b : list byte) :
  a ≡ₚ b -> occurrences i a = occurrences i b.
Proof.
  induction 1 as [| x l l' _ IH | x y l | l l' l'' _ IH1 _ IH2]; cbn [List.filter].
  - reflexivity.
  - destruct (Z.to_nat (byte_code x) =? i)%nat; simpl; now rewrite IH.
  - destruct (Z.to_nat (byte_code x) =? i)%nat, (Z.to_nat (byte_code y) =? i)%nat;
      reflexivity.
  - now rewrite IH1.
Qed.

Lemma histogram_permutation (a b : list byte) : a ≡ₚ b -> histogram a = histogram b.
Proof.
  intros Hp. apply list_eq. intros i.
  destruct (Nat.lt_ge_cases i 256) as [Hi | Hi].
  - rewrite !histogram_lookup by exact Hi.
    now rewrite (occurrences_permutation i a b Hp).
  - rewrite !lookup_ge_None_2 by (rewrite histogram_length; exact Hi). reflexivity.
Qed.

Context {num : Type} {number : JsNumber num}.

(** The entropy does not depend on the order of the bytes: two
    buffers with the same bytes in another order have the same
    entropy, whatever the arithmetic of numbers. *)
Theorem getEntropy_permutation (a b : list byte) :
  a ≡ₚ b -> getEntropy a = getEntropy b.
Proof.
  intros Hp. unfold getEntropy.
  now rewrite (histogram_permutation a b Hp), (Permutation_length Hp).
Qed.

End Histogram.

Lemma getEntropy_permutation_witness :
  getEntropy (number := Sample.real_number) [x01; x02; x01]
  = getEntropy (number := Sample.real_number) [x02; x01; x01].
Proof.
  apply (getEntropy_permutation (number := Sample.real_number)).
  apply perm_swap.
Defined.

(** ** [bufferToHex] *)

Section Hex.

(** The two digits of a byte. *)
Lemma byte_hex (b : byte) :
  padStart (Number_toString16 (byte_code b)) 2 "0"
  = String (hex_digit (byte_code b / 16))
      (String (hex_digit (byte_code b mod 16)) EmptyString).
Proof. destruct b; reflexivity. Qed.

Lemma bufferToHex_cons (b : byte) (rest : list byte) :
  bufferToHex (b :: rest)
  = String (hex_digit (byte_code b / 16))
      (String (hex_digit (byte_code b mod 16)) (bufferToHex rest)).
Proof.
  unfold bufferToHex, join_strings. cbn [map foldr]. rewrite byte_hex.
  now rewrite !append_cons, append_nil.
Qed.

Lemma hex_digit_is_hex (d : Z) : 0 <= d < 16 -> is_hex_digit (hex_digit d) = true.
Proof.
  intros Hd.
  assert (d = 0 \/ d = 1 \/ d = 2 \/ d = 3 \/ d = 4 \/ d = 5 \/ d = 6 \/ d = 7
          \/ d = 8 \/ d = 9 \/ d = 10 \/ d = 11 \/ d = 12 \/ d = 13 \/ d = 14
          \/ d = 15) as H by lia.
  repeat destruct H as [-> | H]; try reflexivity. subst. reflexivity.
Qed.

Lemma hex_digit_inj (d d' : Z) :
  0 <= d < 16 -> 0 <= d' < 16 -> hex_digit d = hex_digit d' -> d = d'.
Proof.
  intros Hd Hd' H. apply (f_equal char_code) in H. unfold hex_digit, char_code in H.
  destruct (d <? 10) eqn:E, (d' <? 10) eqn:E';
    rewrite !N_ascii_embedding in H by lia; lia.
Qed.

Lemma byte_code_inj (b b' : byte) : byte_code b = byte_code b' -> b = b'.
Proof.
  unfold byte_code. intros H. apply N2Z.inj in H.
  pose proof (Byte.of_to_N b) as Hb. rewrite H, Byte.of_to_N in Hb. congruence.
Qed.

Lemma bufferToHex_digits (buffer other : list byte) :
  String.length (bufferToHex buffer) = (2 * length buffer)%nat
  /\ forallb is_hex_digit (list_ascii_of_string (bufferToHex buffer)) = true
  /\ bufferToHex (buffer ++ other) = bufferToHex buffer +:+ bufferToHex other.
Proof.
  induction buffer as [|b rest (IHlen & IHhex & IHapp)].
  - repeat split.
  - rewrite <- app_comm_cons, !bufferToHex_cons. pose proof (byte_code_bounds b).
    split; [|split].
    + simpl. rewrite IHlen. lia.
    + cbn [list_ascii_of_string forallb].
      rewrite IHhex, !hex_digit_is_hex; [reflexivity | |].
      * apply Z.mod_pos_bound. lia.
      * split; [apply Z.div_pos; lia | apply Z.div_lt_upper_bound; lia].
    + rewrite IHapp. now rewrite !append_cons.
Qed.

(** [bufferToHex] writes two digits per byte, each one of
    [0123456789abcdef], and the hex text of two buffers one after the
    other is the two texts one after the other. *)
Theorem bufferToHex_shape (buffer other : list byte) :
  String.length (bufferToHex buffer) = (2 * length buffer)%nat
  /\ forallb is_hex_digit (list_ascii_of_string (bufferToHex buffer)) = true
  /\ bufferToHex (buffer ++ other) = bufferToHex buffer +:+ bufferToHex other.
Proof. apply bufferToHex_digits. Qed.

(** Two buffers with the same hex text are the same buffer. *)
Theorem bufferToHex_injective (a b : list byte) :
  bufferToHex a = bufferToHex b -> a = b.
Proof.
  revert b. induction a as [|x a IH]; intros [|y b] H.
  - reflexivity.
  - rewrite bufferToHex_cons in H. discriminate.
  - rewrite bufferToHex_cons in H. discriminate.
  - rewrite !bufferToHex_cons in H. injection H as Hhi Hlo Hrest.
    pose proof (byte_code_bounds x). pose proof (byte_code_bounds y).
    apply hex_digit_inj in Hhi;
      [| split; [apply Z.div_pos; lia | apply Z.div_lt_upper_bound; lia]
       | split; [apply Z.div_pos; lia | apply Z.div_lt_upper_bound; lia]].
    apply hex_digit_inj in Hlo; [| apply Z.mod_pos_bound; lia | apply Z.mod_pos_bound; lia].
    f_equal; [|exact (IH b Hrest)].
    apply byte_code_inj.
    rewrite (Z.div_mod (byte_code x) 16), (Z.div_mod (byte_code y) 16) by lia.
    now rewrite Hhi, Hlo.
Qed.

Lemma bufferToHex_injective_witness : [x0a; xff] = [x0a; xff].
Proof. apply (bufferToHex_injective [x0a; xff] [x0a; xff]). reflexivity. Defined.

End Hex.

(** ** [calculateHashes] *)

Section Hashes.
Import Hashing.
Context {hashLib : HashLib}.

(** [calculateHashes] returns hashes only when the three digests are
    computed: a digest that fails is the failure of the whole call.
    When it returns, the MD5 field is what spark-md5 gives for the whole
    buffer, and each SHA field is the hex text of its digest, two
    characters of [0123456789abcdef] per byte. *)
Theorem calculateHashes_result (file : File) :
  (forall (algorithm message : string),
     In algorithm ["SHA-1"; "SHA-256"; "SHA-512"] ->
     crypto_subtle_digest algorithm (file_arrayBuffer file) = inl message ->
     exists message' : string, calculateHashes file = inl message')
  /\ (forall hashes : FileHashes,
        calculateHashes file = inr hashes ->
        exists d1 d256 d512 : list byte,
          crypto_subtle_digest "SHA-1" (file_arrayBuffer file) = inr d1
          /\ crypto_subtle_digest "SHA-256" (file_arrayBuffer file) = inr d256
          /\ crypto_subtle_digest "SHA-512" (file_arrayBuffer file) = inr d512
          /\ md5 hashes
             = SparkMD5_end (SparkMD5_append SparkMD5_new (file_arrayBuffer file))
          /\ sha1 hashes = Common.bufferToHex d1
          /\ sha256 hashes = Common.bufferToHex d256
          /\ sha512 hashes = Common.bufferToHex d512
          /\ String.length (sha1 hashes) = (2 * length d1)%nat
          /\ String.length (sha256 hashes) = (2 * length d256)%nat
          /\ String.length (sha512 hashes) = (2 * length d512)%nat
          /\ forallb is_hex_digit
               (list_ascii_of_string (sha1 hashes +:+ sha256 hashes +:+ sha512 hashes))
             = true).
Proof.
  unfold calculateHashes, mbind, Exc_bind, mret, Exc_ret.
  destruct (crypto_subtle_digest "SHA-1" (file_arrayBuffer file)) as [m1|d1] eqn:E1;
    [split; [eauto | discriminate]|].
  destruct (crypto_subtle_digest "SHA-256" (file_arrayBuffer file)) as [m2|d256] eqn:E2;
    [split; [eauto | discriminate]|].
  destruct (crypto_subtle_digest "SHA-512" (file_arrayBuffer file)) as [m3|d512] eqn:E3;
    [split; [eauto | discriminate]|].
  split.
  - intros algorithm message Hin H. simpl in Hin.
    destruct Hin as [<- | [<- | [<- | []]]]; congruence.
  - intros hashes H. injection H as <-. exists d1, d256, d512. cbn.
    unfold bufferToHex.
    repeat (split; [first [reflexivity | apply (bufferToHex_digits _ [])]|]).
    rewrite <- !(proj2 (proj2 (bufferToHex_digits _ _))).
    apply (bufferToHex_digits _ []).
Qed.

End Hashes.

Lemma calculateHashes_result_witness :
  exists d1 d256 d512 : list byte,
    Hashing.crypto_subtle_digest (HashLib := Sample.hashLib) "SHA-1" [x41; x42] = inr d1
    /\ Hashing.crypto_subtle_digest (HashLib := Sample.hashLib) "SHA-256" [x41; x42]
       = inr d256
    /\ Hashing.crypto_subtle_digest (HashLib := Sample.hashLib) "SHA-512" [x41; x42]
       = inr d512
    /\ String.length (bufferToHex d1) = 40%nat
    /\ String.length (bufferToHex d256) = 64%nat
    /\ String.length (bufferToHex d512) = 128%nat.
Proof.
  destruct (proj2 (calculateHashes_result (hashLib := Sample.hashLib)
                     (Sample.file "" "ab.bin" [x41; x42])) _ eq_refl)
    as (d1 & d256 & d512 & H1 & H256 & H512 & _ & _ & _ & _ & L1 & L256 & L512 & _).
  exists d1, d256, d512. repeat split; try assumption.
  - injection H1 as <-. reflexivity.
  - injection H256 as <-. reflexivity.
  - injection H512 as <-. reflexivity.
Defined.

(** ** The PNG parser: signature check and recorded chunks *)

Section PngMore.
Import PngSpec.

Lemma differs_byte (b : byte) (expected : byte) :
  differs (Some (byte_code b)) (byte_code expected) = false <-> b = expected.
Proof.
  unfold differs. rewrite negb_false_iff, Z.eqb_eq. split.
  - apply byte_code_inj.
  - now intros ->.
Qed.

(** The magic number check looks at the first four bytes and at
    nothing else: no warning exactly when they are 89 50 4E 47. *)
Theorem bad_signature_first_four (data : list byte) :
  bad_signature data = false <-> take 4 data = [x89; x50; x4e; x47].
Proof.
  destruct (Nat.lt_ge_cases (length data) 4) as [Hshort | Hlong].
  { rewrite (bad_signature_short data Hshort). split; [discriminate|].
    intros H. apply (f_equal length) in H. rewrite length_take in H.
    change (length [x89; x50; x4e; x47]) with 4%nat in H. lia. }
  unfold bad_signature.
  destruct data as [|b0 [|b1 [|b2 [|b3 rest]]]]; try (simpl in Hlong; lia).
  change (data_at (b0 :: b1 :: b2 :: b3 :: rest) 0) with (Some (byte_code b0)).
  change (data_at (b0 :: b1 :: b2 :: b3 :: rest) 1) with (Some (byte_code b1)).
  change (data_at (b0 :: b1 :: b2 :: b3 :: rest) 2) with (Some (byte_code b2)).
  change (data_at (b0 :: b1 :: b2 :: b3 :: rest) 3) with (Some (byte_code b3)).
  change 137 with (byte_code x89). change 80 with (byte_code x50).
  change 78 with (byte_code x4e). change 71 with (byte_code x47).
  rewrite !orb_false_iff, !differs_byte. cbn [take]. split.
  - intros (((-> & ->) & ->) & ->). reflexivity.
  - intros H. injection H as -> -> -> ->. repeat split.
Qed.

(** What a turn of the loop does. *)
Lemma walk_step_turn (data : list byte) (w w1 : Walk) :
  walk_step data w = Some w1 ->
  w_offset w < data_length data
  /\ w_offset w + 8 <= data_length data
  /\ w1 = {| w_chunks :=
               w_chunks w
               ++ [{| name := chunk_type data (w_offset w);
                      size := chunk_length data (w_offset w);
                      offset := w_offset w |}];
             w_offset := w_offset w + (4 + 4 + chunk_length data (w_offset w) + 4) |}.
Proof.
  unfold walk_step. intros H.
  destruct (Z.ltb_spec (w_offset w) (data_length data)); [|discriminate].
  destruct (Z.gtb_spec (w_offset w + 8) (data_length data)); [discriminate|].
  injection H as <-. repeat split; lia.
Qed.

Lemma walk_step_exit (data : list byte) (w : Walk) :
  walk_step data w = None ->
  data_length data <= w_offset w \/ data_length data < w_offset w + 8.
Proof.
  unfold walk_step. intros H.
  destruct (Z.ltb_spec (w_offset w) (data_length data)); [|lia].
  destruct (Z.gtb_spec (w_offset w + 8) (data_length data)); [lia | discriminate].
Qed.

Lemma chunk_length_range (data : list byte) (o : Z) :
  -2147483648 <= chunk_length data o < 2147483648.
Proof. unfold chunk_length, js_bor. apply to_int32_range. Qed.

Lemma chunk_type_length (data : list byte) (o : Z) :
  String.length (chunk_type data o) = 4%nat.
Proof. reflexivity. Qed.

Lemma walk_layout (data : list byte) (fuel : nat) :
  forall w w' : Walk,
    walk fuel data w = Some w' ->
    exists added : list Chunk,
      w_chunks w' = w_chunks w ++ added
      /\ chained (w_offset w) added (w_offset w')
      /\ Forall (recorded data) added
      /\ (data_length data <= w_offset w' \/ data_length data < w_offset w' + 8).
Proof.
  induction fuel as [|fuel IH]; intros w w' H; simpl in H;
    destruct (walk_step data w) as [w1|] eqn:Hstep; try discriminate.
  - injection H as <-. exists []. rewrite app_nil_r.
    repeat split; [constructor | exact (walk_step_exit _ _ Hstep)].
  - destruct (walk_step_turn _ _ _ Hstep) as (Hlt & Hroom & ->).
    destruct (IH _ _ H) as (added & Hcs & Hchain & Hrec & Hexit).
    cbn [w_chunks w_offset] in Hcs, Hchain.
    eexists (_ :: added). rewrite Hcs, <- List.app_assoc.
    split; [reflexivity|]. split; [split; [reflexivity | exact Hchain]|].
    split; [|exact Hexit].
    constructor; [|exact Hrec].
    repeat split; try assumption; apply chunk_length_range.
  - injection H as <-. exists []. rewrite app_nil_r.
    repeat split; [constructor | exact (walk_step_exit _ _ Hstep)].
Qed.

(** In a chain where no chunk steps backwards, no chunk begins before
    the start of the chain. *)
Lemma chained_forwards (cs : list Chunk) :
  forall start stop : Z,
    chained start cs stop ->
    Forall (fun c => -12 <= size c) cs ->
    Forall (fun c => start <= offset c) cs.
Proof.
  induction cs as [|c cs IH]; intros start stop Hchain Hsizes; [constructor|].
  destruct Hchain as [Hstart Hrest].
  inversion Hsizes as [|? ? Hsize Hothers]; subst.
  constructor; [lia|].
  specialize (IH _ _ Hrest Hothers).
  eapply Forall_impl; [exact IH|]. cbv beta. intros c' Hc'. lia.
Qed.

Section WithImageReader.
Context {builtins : Builtins} {exifLib : ExifLib}.

(** Whenever [parsePng] returns, on any buffer: the chunks it recorded
    follow one another from offset 8, each beginning [4 + 4 + size + 4]
    bytes after the one before; the header of each ends within the
    buffer, its name and size are those read at its offset, the name
    has 4 characters and the size is in the signed 32-bit range; and
    where the last one ends, the buffer is over or fewer than 8 bytes
    remain.  An offset can be negative, after a negative size; when no
    size is below -12, so that no chunk steps backwards, every offset
    is 8 or more and every header lies inside the buffer. *)
Theorem parsePng_chunks_laid_out (fuel : nat) (file : File) (result : MetadataResult) :
  parsePng fuel file = Some result ->
  exists (cs : list Chunk) (stop : Z),
    chunks result = Some cs
    /\ chained 8 cs stop
    /\ Forall (recorded (file_arrayBuffer file)) cs
    /\ (Forall (fun c => -12 <= size c) cs ->
        Forall (fun c => 8 <= offset c /\ header_inside (file_arrayBuffer file) c) cs)
    /\ (data_length (file_arrayBuffer file) <= stop
        \/ data_length (file_arrayBuffer file) < stop + 8).
Proof.
  unfold parsePng. intros H.
  destruct (walk fuel (file_arrayBuffer file) {| w_chunks := []; w_offset := 8 |})
    as [w|] eqn:Hwalk; [|discriminate].
  simpl in H. injection H as <-. cbn [chunks].
  destruct (walk_layout _ _ _ _ Hwalk) as (added & Hcs & Hchain & Hrec & Hexit).
  cbn [w_chunks w_offset] in Hcs, Hchain. rewrite Hcs.
  exists added, (w_offset w).
  split; [reflexivity|]. split; [exact Hchain|]. split; [exact Hrec|].
  split; [|exact Hexit].
  intros Hsizes.
  pose proof (chained_forwards _ _ _ Hchain Hsizes) as Hfrom.
  clear Hchain Hsizes Hcs Hexit.
  induction added as [|c cs IH]; [constructor|].
  inversion Hrec as [|? ? Hc Hcs]; subst.
  inversion Hfrom as [|? ? Hoff Hoffs]; subst.
  constructor; [|exact (IH Hcs Hoffs)].
  destruct Hc as (_ & Hroom & _).
  unfold header_inside. lia.
Qed.

End WithImageReader.

(** A stream of the specification has fewer chunks than the buffer
    has bytes. *)
Lemma chunk_stream_count (data : list byte) (start : nat) (cs : list Chunk) :
  chunk_stream data start cs -> cs <> [] -> (length cs + start < length data)%nat.
Proof.
  induction 1 as [start Hend | start len tag rest Hroom Hlen Htag Hrest IH];
    [congruence|].
  intros _. destruct rest as [|c rest]; [simpl; lia|].
  specialize (IH ltac:(discriminate)). simpl in IH |- *. lia.
Qed.

Section WithImageReader2.
Context {builtins : Builtins} {exifLib : ExifLib}.

(** On every buffer the walk of the specification gives a list of
    chunks; when none of their length fields reaches 2^31, [parsePng]
    is done within as many turns as the buffer has bytes, and these are
    the chunks it returns: name = type tag, size = the [uint32] length,
    offset = chunk start. *)
Theorem parsePng_follows_stream (file : File) :
  exists cs : list Chunk,
    chunk_stream (file_arrayBuffer file) 8 cs
    /\ (Forall (fun c => size c < 2147483648) cs ->
        chunks <$> parsePng (length (file_arrayBuffer file)) file = Some (Some cs)).
Proof.
  destruct (chunk_stream_total (file_arrayBuffer file) 8) as [cs Hcs].
  exists cs. split; [exact Hcs|]. intros Hsmall.
  apply parsePng_stream; [exact Hcs | exact Hsmall |].
  destruct cs as [|c cs]; [simpl; lia|].
  pose proof (chunk_stream_count _ _ _ Hcs ltac:(discriminate)). lia.
Qed.

End WithImageReader2.

(** The length the code records for a chunk is the [uint32] length
    field of the header read as a signed 32-bit number: the field itself
    below 2^31, the field minus 2^32 from 2^31 on. *)
Theorem chunk_length_signed (data : list byte) (start : nat) (len : Z) :
  uint32_be data start = Some len ->
  chunk_length data (Z.of_nat start)
  = (if len <? 2147483648 then len else len - 4294967296).
Proof. intros H. exact (proj2 (chunk_length_spec data start len H)). Qed.

Lemma chunk_length_signed_witness :
  chunk_length Sample.huge_length_png 8 = -1
  /\ chunk_length (Sample.iend_png []) 8 = 0.
Proof.
  split.
  - exact (chunk_length_signed Sample.huge_length_png 8 4294967295 eq_refl).
  - exact (chunk_length_signed (Sample.iend_png []) 8 0 eq_refl).
Defined.

End PngMore.

Lemma parsePng_chunks_laid_out_witness :
  exists (cs : list Chunk) (stop : Z),
    Some [{| name := "IEND"; size := 0; offset := 8 |}] = Some cs
    /\ PngSpec.chained 8 cs stop
    /\ Forall (PngSpec.recorded (Sample.iend_png [xae; x42; x60; x82])) cs
    /\ (Forall (fun c => -12 <= size c) cs ->
        Forall (fun c => 8 <= offset c
                         /\ PngSpec.header_inside
                              (Sample.iend_png [xae; x42; x60; x82]) c) cs)
    /\ (20 <= stop \/ 20 < stop + 8).
Proof.
  apply (parsePng_chunks_laid_out (builtins := Sample.builtins)
           (exifLib := Sample.exifLib) 1
           (Sample.file "image/png" "a.png" (Sample.iend_png [xae; x42; x60; x82]))
           {| fileType := "PNG";
              metadata := ∅;
              warnings := ["Erro ao ler EXIF: Invalid image format"];
              chunks := Some [{| name := "IEND"; size := 0; offset := 8 |}];
              xmlDump := None |}).
  reflexivity.
Defined.

(** A length field of 0xFFFFFFEA is read as -22: the walk steps back
    from offset 8 to offset -2, and there records a second chunk, whose
    header begins before the buffer. *)
Lemma parsePng_steps_backwards :
  chunks <$> parsePng (builtins := Sample.builtins) (exifLib := Sample.exifLib) 2
               (Sample.file "image/png" "a.png" Sample.backward_png)
  = Some (Some [{| name := "IDAT"; size := -22; offset := 8 |};
                {| name := chunk_type Sample.backward_png (-2);
                   size := 35152; offset := -2 |}])
  /\ chunk_type Sample.backward_png (-2)
     = String "N" (String "G" (String "013" (String "010" EmptyString)))
  /\ data_at Sample.backward_png (-2) = None
  /\ PngSpec.recorded Sample.backward_png
       {| name := chunk_type Sample.backward_png (-2); size := 35152; offset := -2 |}.
Proof.
  split; [reflexivity|]. split; [reflexivity|]. split; [reflexivity|].
  unfold PngSpec.recorded. cbn [offset size name].
  change (data_length Sample.backward_png) with 16.
  repeat match goal with |- _ /\ _ => split end; first [reflexivity | lia].
Qed.

(** ** The image parser *)

Section ImageMore.
Context {builtins : Builtins} {exifLib : ExifLib}.

(** When the tags cannot be read, [parseImage] still returns: the tag
    tree is empty and the only warning is the one of the failure (the
    software and date checks find nothing in an empty tree). *)
Theorem parseImage_unreadable (file : File) (message : string) :
  ExifReader_load file = inl message ->
  parseImage file
  = {| fileType := "IMAGE";
       metadata := ∅;
       warnings := [EXIF_ERROR message];
       chunks := None;
       xmlDump := None |}.
Proof.
  intros H. unfold parseImage, try_catch, mbind, Try_bind, call. rewrite H.
  reflexivity.
Qed.

(** The warnings of [parseImage] when the tags are read. *)
Lemma parseImage_warnings (file : File) (tags : gmap string JsValue) :
  ExifReader_load file = inr tags ->
  let exif := js_get (JObj tags) "exif" in
  let xmp := js_get (JObj tags) "xmp" in
  let software :=
    js_or (js_get (js_get exif "Software") "description")
          (js_get (js_get xmp "CreatorTool") "description") in
  let created := js_get (js_get exif "DateTimeOriginal") "description" in
  let modified := js_get (js_get exif "DateTime") "description" in
  metadata (parseImage file) = tags
  /\ warnings (parseImage file)
     = (if truthy (js_get exif "Software") || truthy (js_get xmp "CreatorTool")
        then [SOFTWARE_DETECTED (js_toString software)] else [])
       ++ (if truthy created && truthy modified && js_gt created modified
           then [IMAGE_TEMPORAL_WARNING] else []).
Proof.
  intros H exif xmp software created modified.
  unfold parseImage, try_catch, mbind, Try_bind, call, assign. rewrite H.
  cbn [set_metadata v_metadata init_vars v_warnings].
  fold exif xmp. fold created modified. fold software.
  assert (truthy (js_or (js_get exif "Software") (js_get xmp "CreatorTool"))
          = truthy (js_get exif "Software") || truthy (js_get xmp "CreatorTool")) as ->.
  { unfold js_or. destruct (truthy (js_get exif "Software")) eqn:E;
      [exact E | reflexivity]. }
  destruct (truthy (js_get exif "Software") || truthy (js_get xmp "CreatorTool"));
    destruct (truthy created && truthy modified && js_gt created modified);
    split; reflexivity.
Qed.

(** When the tags are read and [exif.Software] is there, [parseImage]
    warns of the software: by the description of [exif.Software] when
    that is a non-empty string, whatever [xmp.CreatorTool] holds; and
    when [exif.Software] has no description and there is no
    [xmp.CreatorTool], the warning names the software [undefined]. *)
Theorem parseImage_software (file : File) (tags : gmap string JsValue) :
  ExifReader_load file = inr tags ->
  truthy (js_get (js_get (JObj tags) "exif") "Software") = true ->
  (forall description : string,
     js_get (js_get (js_get (JObj tags) "exif") "Software") "description"
     = JStr description ->
     description <> "" ->
     In (SOFTWARE_DETECTED description) (warnings (parseImage file)))
  /\ (js_get (js_get (js_get (JObj tags) "exif") "Software") "description"
      = JUndefined ->
      js_get (js_get (JObj tags) "xmp") "CreatorTool" = JUndefined ->
      In (SOFTWARE_DETECTED "undefined") (warnings (parseImage file))).
Proof.
  intros Hload Hsoftware.
  rewrite (proj2 (parseImage_warnings file tags Hload)). rewrite Hsoftware.
  cbn [orb]. split.
  - intros description Hd Hne. rewrite Hd. unfold js_or. cbn [truthy].
    destruct (String.eqb_spec description ""); [congruence|].
    cbn [negb js_toString]. now left.
  - intros Hd Hxmp. rewrite Hd, Hxmp. now left.
Qed.

End ImageMore.

Lemma parseImage_unreadable_witness :
  parseImage (builtins := Sample.builtins) (exifLib := Sample.exifLib)
    (Sample.file "image/jpeg" "a.jpg" [])
  = {| fileType := "IMAGE";
       metadata := ∅;
       warnings := [EXIF_ERROR "Invalid image format"];
       chunks := None;
       xmlDump := None |}.
Proof.
  apply (parseImage_unreadable (builtins := Sample.builtins)
           (exifLib := Sample.exifLib)).
  reflexivity.
Defined.

Lemma parseImage_software_witness :
  In (SOFTWARE_DETECTED "undefined")
    (warnings (parseImage (builtins := Sample.builtins)
                 (exifLib := Sample.exifReader (inr Sample.bare_software_tags))
                 (Sample.file "image/jpeg" "a.jpg" []))).
Proof.
  apply (parseImage_software (builtins := Sample.builtins)
           (exifLib := Sample.exifReader (inr Sample.bare_software_tags))
           (Sample.file "image/jpeg" "a.jpg" []) Sample.bare_software_tags);
    reflexivity.
Defined.

(** ** The PDF parser: the shape of every result *)

Section PdfMore.
Context {pdfLib : PdfLib}.

Lemma pdf_success_or_failure (arrayBuffer : list byte) :
  pdf_success arrayBuffer \/ exists message : string, pdf_failure arrayBuffer message.
Proof.
  destruct (PDFDocument_load arrayBuffer) as [m|pdfDoc] eqn:Hload;
    [right; exists m; now constructor|].
  assert (Hfail : forall g m, In g pdf_getters -> g pdfDoc = inl m ->
                          exists message, pdf_failure arrayBuffer message)
    by (intros g m Hg Hm; exists m; now apply (pdf_getter_failure _ _ pdfDoc g)).
  unfold pdf_success, pdf_getters in *.
  destruct (getPageCount pdfDoc) eqn:E1; [right; eapply Hfail; [|exact E1]; simpl; tauto|].
  destruct (getTitle pdfDoc) eqn:E2; [right; eapply Hfail; [|exact E2]; simpl; tauto|].
  destruct (getAuthor pdfDoc) eqn:E3; [right; eapply Hfail; [|exact E3]; simpl; tauto|].
  destruct (getSubject pdfDoc) eqn:E4; [right; eapply Hfail; [|exact E4]; simpl; tauto|].
  destruct (getKeywords pdfDoc) eqn:E5; [right; eapply Hfail; [|exact E5]; simpl; tauto|].
  destruct (getCreator pdfDoc) eqn:E6; [right; eapply Hfail; [|exact E6]; simpl; tauto|].
  destruct (getProducer pdfDoc) eqn:E7; [right; eapply Hfail; [|exact E7]; simpl; tauto|].
  destruct (getCreationDate pdfDoc) eqn:E8;
    [right; eapply Hfail; [|exact E8]; simpl; tauto|].
  destruct (getModificationDate pdfDoc) eqn:E9;
    [right; eapply Hfail; [|exact E9]; simpl; tauto|].
  left. exists pdfDoc. split; [exact Hload|].
  repeat constructor; eauto.
Qed.

(** The fields of a document that loads are stored under their keys,
    and under no other key. *)
Lemma parsePdf_fields (file : File) :
  pdf_success (file_arrayBuffer file) ->
  exists pdfDoc : PDFDocument,
    PDFDocument_load (file_arrayBuffer file) = inr pdfDoc
    /\ (forall (key : string) (getter : PDFDocument -> Exc JsValue),
          In (key, getter) pdf_fields ->
          exists v : JsValue,
            getter pdfDoc = inr v /\ metadata (parsePdf file) !! key = Some v)
    /\ (forall key : string,
          ~ In key (map fst pdf_fields) -> metadata (parsePdf file) !! key = None).
Proof.
  intros (pdfDoc & Hload & Hget). exists pdfDoc. split; [exact Hload|].
  unfold pdf_getters in Hget.
  repeat match goal with
         | H : Forall _ (_ :: _) |- _ =>
             apply Forall_cons in H; destruct H as [[? ?] H]
         end.
  assert (Hmeta : metadata (parsePdf file)
                  = list_to_map
                      [("pageCount", x); ("title", x0); ("author", x1);
                       ("subject", x2); ("keywords", x3); ("creator", x4);
                       ("producer", x5); ("creationDate", x6);
                       ("modificationDate", x7)]).
  { unfold parsePdf, try_catch, parsePdf_body, mbind, Try_bind, call.
    rewrite Hload.
    repeat match goal with H : _ pdfDoc = inr _ |- _ => rewrite H; clear H end.
    unfold when, assign.
    destruct (existsb mentions_script _), (existsb mentions_auto_action _);
      reflexivity. }
  rewrite Hmeta. split.
  - intros key getter Hin. unfold pdf_fields in Hin. simpl in Hin.
    repeat (destruct Hin as [Hin | Hin];
            [injection Hin as <- <-; eexists; split; [eassumption | reflexivity]|]).
    destruct Hin.
  - intros key Hkey. apply not_elem_of_list_to_map_1.
    intros Hin. apply Hkey. apply list_elem_of_In in Hin. exact Hin.
Qed.

(** Every result of [parsePdf] has one of two shapes, and [xmlDump]
    is empty in both.  Either the loader or a getter failed: the only
    warning is the failure's and the metadata are empty.  Or the document
    loaded and all fields were read: the warnings are those of the two
    marker checks, the parse-failure warning is not among them, every
    field is stored under its key, and there is no other key. *)
Theorem parsePdf_result (file : File) :
  xmlDump (parsePdf file) = Some ""
  /\ ((exists message : string,
         pdf_failure (file_arrayBuffer file) message
         /\ warnings (parsePdf file) = [PDF_ERROR message]
         /\ metadata (parsePdf file) = ∅)
      \/ (exists pdfDoc : PDFDocument,
            PDFDocument_load (file_arrayBuffer file) = inr pdfDoc
            /\ (forall w : string,
                  In w (warnings (parsePdf file)) ->
                  w = PDF_JAVASCRIPT_WARNING \/ w = PDF_AUTO_ACTION_WARNING)
            /\ (forall (key : string) (getter : PDFDocument -> Exc JsValue),
                  In (key, getter) pdf_fields ->
                  exists v : JsValue,
                    getter pdfDoc = inr v /\ metadata (parsePdf file) !! key = Some v)
            /\ (forall key : string,
                  ~ In key (map fst pdf_fields) ->
                  metadata (parsePdf file) !! key = None))).
Proof.
  split.
  - unfold parsePdf, try_catch, parsePdf_body, mbind, Try_bind, call, when, assign.
    destruct (PDFDocument_load (file_arrayBuffer file)) as [?|pdfDoc];
      [reflexivity|].
    repeat match goal with
           | |- context [match ?getter pdfDoc with _ => _ end] =>
               destruct (getter pdfDoc); [reflexivity|]
           end.
    destruct (existsb mentions_script _), (existsb mentions_auto_action _);
      reflexivity.
  - destruct (pdf_success_or_failure (file_arrayBuffer file)) as [Hok | [m Hfail]].
    + right. destruct (parsePdf_fields file Hok) as (pdfDoc & Hload & Hfields & Hkeys).
      exists pdfDoc. split; [exact Hload|]. split; [|split; assumption].
      rewrite (parsePdf_loaded file Hok). intros w Hw.
      apply in_app_or in Hw.
      destruct (existsb mentions_script _), (existsb mentions_auto_action _);
        simpl in Hw; intuition.
    + left. exact (parsePdf_failure file m Hfail).
Qed.

End PdfMore.

(** ** The DOCX parser: the shape of every result *)

Section DocxMore.
Context {builtins : Builtins} {zipLib : ZipLib} {domLib : DomLib}.

(** Running [parseDocx], one call of the archive reader after the
    other. *)
Ltac docx_unfold :=
  cbv beta iota zeta delta
    [parseDocx try_catch parseDocx_body docx_core docx_app docx_custom
     mbind Try_bind mret Try_ret call assign vars when init_vars
     warnings metadata].

Ltac docx_step :=
  match goal with
  | |- context [match JSZip_loadAsync ?f with _ => _ end] =>
      let E := fresh "Hopen" in
      let archive := fresh "archive" in
      destruct (JSZip_loadAsync f) as [? | archive] eqn:E
  | |- context [match JSZip_file ?z ?p with _ => _ end] =>
      let E := fresh "Hentry" in destruct (JSZip_file z p) eqn:E
  | |- context [match ZipObject_async_text ?e with _ => _ end] =>
      let E := fresh "Htext" in destruct (ZipObject_async_text e) eqn:E
  | |- context [if ?b then _ else _] =>
      let E := fresh "Hcond" in destruct b eqn:E
  end; cbv beta iota zeta.

Ltac docx_run := docx_unfold; repeat docx_step.







End DocxMore.

(** ** Dispatch by extension *)

Section DispatchMore.

Lemma toLowerCase_app (a b : string) :
  toLowerCase (a +:+ b) = toLowerCase a +:+ toLowerCase b.
Proof.
  induction a as [|c a IH]; [reflexivity|].
  rewrite append_cons. simpl. now rewrite IH, append_cons.
Qed.

Lemma substring_suffix (a s : string) :
  String.substring (String.length a) (String.length s) (a +:+ s) = s.
Proof.
  induction a as [|c a IH]; [rewrite append_nil; apply substring_all|].
  rewrite append_cons. simpl. exact IH.
Qed.

(** [s.endsWith(suffix)] holds for every string that ends with it. *)
Lemma endsWith_intro (a suffix : string) : endsWith (a +:+ suffix) suffix = true.
Proof.
  unfold endsWith. rewrite length_append.
  replace (String.length suffix <=? String.length a + String.length suffix)%nat
    with true by (symmetry; apply Nat.leb_le; lia).
  replace (String.length a + String.length suffix - String.length suffix)%nat
    with (String.length a) by lia.
  rewrite substring_suffix. apply String.eqb_refl.
Qed.

Lemma string_of_list_ascii_app (x y : list ascii) :
  string_of_list_ascii (x ++ y) = string_of_list_ascii x +:+ string_of_list_ascii y.
Proof.
  induction x as [|c x IH]; [reflexivity|].
  simpl. now rewrite IH, append_cons.
Qed.

(** Of two endings of one string, the shorter ends the longer. *)
Lemma endsWith_both (s a b : string) :
  endsWith s a = true -> endsWith s b = true ->
  (String.length b <= String.length a)%nat ->
  endsWith a b = true.
Proof.
  intros Ha Hb Hlen.
  destruct (endsWith_app _ _ Ha) as [p Hp]. destruct (endsWith_app _ _ Hb) as [q Hq].
  assert (Hl : list_ascii_of_string p ++ list_ascii_of_string a
               = list_ascii_of_string q ++ list_ascii_of_string b)
    by (rewrite <- !list_ascii_append; congruence).
  assert (Hlens : (String.length p + String.length a
                   = String.length q + String.length b)%nat)
    by (rewrite <- !length_append; congruence).
  assert (Hlist : forall t, length (list_ascii_of_string t) = String.length t)
    by (intros t; induction t as [|c t IH]; simpl; congruence).
  apply (f_equal (drop (String.length q))) in Hl.
  rewrite drop_app_ge in Hl by (rewrite Hlist; lia).
  rewrite (drop_app_length' _ _ (String.length q)) in Hl by (symmetry; apply Hlist).
  rewrite Hlist in Hl.
  set (k := (String.length q - String.length p)%nat) in Hl.
  assert (Ea : exists x : string, a = x +:+ b).
  { exists (string_of_list_ascii (take k (list_ascii_of_string a))).
    rewrite <- (string_of_list_ascii_of_string b), <- string_of_list_ascii_app.
    rewrite <- Hl, take_drop. symmetry. apply string_of_list_ascii_of_string. }
  destruct Ea as [x ->]. apply endsWith_intro.
Qed.

Context {builtins : Builtins} {exifLib : ExifLib} {pdfLib : PdfLib}
        {zipLib : ZipLib} {domLib : DomLib}.

Ltac other_suffix H :=
  match goal with
  | |- endsWith ?s ?b = false =>
      let F := fresh "F" in
      destruct (endsWith s b) eqn:F; [exfalso | reflexivity];
      first [ assert (C := endsWith_both _ _ _ H F ltac:(simpl; lia));
              vm_compute in C; discriminate C
            | assert (C := endsWith_both _ _ _ F H ltac:(simpl; lia));
              vm_compute in C; discriminate C ]
  end.

(** The extension of the file name is matched whatever its case, and
    it selects the parser of its format unless the declared MIME type is
    the one of a format earlier in the order: [.jpg] and [.jpeg] always
    select the image parser; [.png] the PNG parser unless the type is
    [image/jpeg]; [.pdf] the PDF parser unless the type is [image/jpeg]
    or [image/png]; [.docx] the DOCX parser unless the type is one of
    these or [application/pdf]. *)
Theorem parseFile_extension (fuel : nat) (file : File) (stem extension : string) :
  file_name file = stem +:+ extension ->
  (toLowerCase extension = ".jpg" \/ toLowerCase extension = ".jpeg" ->
   parseFile fuel file = Some (parseImage file))
  /\ (toLowerCase extension = ".png" ->
      file_type file <> "image/jpeg" ->
      parseFile fuel file = parsePng fuel file)
  /\ (toLowerCase extension = ".pdf" ->
      file_type file <> "image/jpeg" -> file_type file <> "image/png" ->
      parseFile fuel file = Some (parsePdf file))
  /\ (toLowerCase extension = ".docx" ->
      file_type file <> "image/jpeg" -> file_type file <> "image/png" ->
      file_type file <> "application/pdf" ->
      parseFile fuel file = Some (parseDocx file)).
Proof.
  intros Hname. unfold parseFile. rewrite Hname, toLowerCase_app.
  set (name := toLowerCase stem +:+ toLowerCase extension).
  repeat split.
  - intros [H | H]; assert (E := endsWith_intro (toLowerCase stem) (toLowerCase extension));
      fold name in E; rewrite H in E; rewrite E; now rewrite ?orb_true_r.
  - intros H Hjpeg. assert (E := endsWith_intro (toLowerCase stem) (toLowerCase extension)).
    fold name in E. rewrite H in E.
    apply String.eqb_neq in Hjpeg. rewrite Hjpeg.
    assert (endsWith name ".jpg" = false) as -> by other_suffix E.
    assert (endsWith name ".jpeg" = false) as -> by other_suffix E.
    rewrite E. now rewrite orb_true_r.
  - intros H Hjpeg Hpng.
    assert (E := endsWith_intro (toLowerCase stem) (toLowerCase extension)).
    fold name in E. rewrite H in E.
    apply String.eqb_neq in Hjpeg, Hpng. rewrite Hjpeg, Hpng.
    assert (endsWith name ".jpg" = false) as -> by other_suffix E.
    assert (endsWith name ".jpeg" = false) as -> by other_suffix E.
    assert (endsWith name ".png" = false) as -> by other_suffix E.
    rewrite E. now rewrite orb_true_r.
  - intros H Hjpeg Hpng Hpdf.
    assert (E := endsWith_intro (toLowerCase stem) (toLowerCase extension)).
    fold name in E. rewrite H in E.
    apply String.eqb_neq in Hjpeg, Hpng, Hpdf. rewrite Hjpeg, Hpng, Hpdf.
    assert (endsWith name ".jpg" = false) as -> by other_suffix E.
    assert (endsWith name ".jpeg" = false) as -> by other_suffix E.
    assert (endsWith name ".png" = false) as -> by other_suffix E.
    assert (endsWith name ".pdf" = false) as -> by other_suffix E.
    rewrite E. now rewrite orb_true_r.
Qed.

(** The five results: the [fileType] of a result names the parser
    that made it, and [GENERIC] is the result of no parser, with empty
    metadata and no warnings, for a file whose type and name match no
    format. *)
Theorem parseFile_fileType (fuel : nat) (file : File) (result : MetadataResult) :
  parseFile fuel file = Some result ->
  (fileType result = "IMAGE" /\ result = parseImage file)
  \/ (fileType result = "PNG" /\ parsePng fuel file = Some result)
  \/ (fileType result = "PDF" /\ result = parsePdf file)
  \/ (fileType result = "DOCX" /\ result = parseDocx file)
  \/ (fileType result = "GENERIC"
      /\ metadata result = ∅ /\ warnings result = []
      /\ chunks result = None /\ xmlDump result = None
      /\ ~ In (file_type file)
             ["image/jpeg"; "image/png"; "application/pdf"; DOCX_MIME]
      /\ forall extension : string,
           In extension [".jpg"; ".jpeg"; ".png"; ".pdf"; ".docx"] ->
           endsWith (toLowerCase (file_name file)) extension = false).
Proof.
  unfold parseFile. set (name := toLowerCase (file_name file)).
  destruct (String.eqb_spec (file_type file) "image/jpeg") as [H1|H1];
    [intros H; injection H as <-; now left|].
  destruct (endsWith name ".jpg") eqn:E1; [intros H; injection H as <-; now left|].
  destruct (endsWith name ".jpeg") eqn:E2; [intros H; injection H as <-; now left|].
  cbn [orb].
  assert (Hpng : forall r, parsePng fuel file = Some r -> fileType r = "PNG").
  { unfold parsePng. intros r Hr.
    destruct (walk fuel _ _); [|discriminate]. simpl in Hr. now injection Hr as <-. }
  destruct (String.eqb_spec (file_type file) "image/png") as [H2|H2];
    [intros H; right; left; split; [exact (Hpng _ H) | exact H]|].
  destruct (endsWith name ".png") eqn:E3;
    [intros H; right; left; split; [exact (Hpng _ H) | exact H]|].
  cbn [orb].
  destruct (String.eqb_spec (file_type file) "application/pdf") as [H3|H3];
    [intros H; injection H as <-; right; right; now left|].
  destruct (endsWith name ".pdf") eqn:E4;
    [intros H; injection H as <-; right; right; now left|].
  cbn [orb].
  destruct (String.eqb_spec (file_type file) DOCX_MIME) as [H4|H4];
    [intros H; injection H as <-; right; right; right; now left|].
  destruct (endsWith name ".docx") eqn:E5;
    [intros H; injection H as <-; right; right; right; now left|].
  cbn [orb]. intros H. injection H as <-. do 4 right.
  repeat split.
  - simpl. intuition.
  - intros extension Hin. simpl in Hin.
    destruct Hin as [<- | [<- | [<- | [<- | [<- | []]]]]]; assumption.
Qed.

End DispatchMore.

Lemma parseFile_extension_witness :
  parseFile (builtins := Sample.builtins) (exifLib := Sample.exifLib)
    (pdfLib := Sample.pdfLib) (zipLib := Sample.zipLib [])
    (domLib := Sample.domLib []) 0 (Sample.file "" "REPORT.Pdf" [])
  = Some (parsePdf (pdfLib := Sample.pdfLib) (Sample.file "" "REPORT.Pdf" [])).
Proof.
  apply (parseFile_extension (builtins := Sample.builtins)
           (exifLib := Sample.exifLib) (pdfLib := Sample.pdfLib)
           (zipLib := Sample.zipLib []) (domLib := Sample.domLib []) 0
           (Sample.file "" "REPORT.Pdf" []) "REPORT" ".Pdf");
    first [reflexivity | discriminate].
Defined.

Lemma parseFile_fileType_witness :
  fileType {| fileType := "GENERIC"; metadata := ∅; warnings := [];
              chunks := None; xmlDump := None |} = "GENERIC"
  /\ ~ In "text/plain" ["image/jpeg"; "image/png"; "application/pdf"; DOCX_MIME].
Proof.
  destruct (parseFile_fileType (builtins := Sample.builtins)
              (exifLib := Sample.exifLib) (pdfLib := Sample.pdfLib)
              (zipLib := Sample.zipLib []) (domLib := Sample.domLib []) 0
              (Sample.file "text/plain" "notes.txt" [])
              {| fileType := "GENERIC"; metadata := ∅; warnings := [];
                 chunks := None; xmlDump := None |} eq_refl)
    as [[H _] | [[H _] | [[H _] | [[H _] | (H & _ & _ & _ & _ & Htype & _)]]]];
    try discriminate H.
  split; [exact H | exact Htype].
Defined.

(** ** The views of the analysis and the hex view *)

Section Views.

(** [buffer.slice(0, n)] is the first [n] bytes. *)
Lemma slice_prefix (data : list byte) (n : Z) :
  0 <= n -> ArrayBuffer_slice data 0 n = take (Z.to_nat n) data.
Proof.
  intros Hn. unfold ArrayBuffer_slice, data_length.
  replace (n <? 0) with false by lia. change (0 <? 0) with false. cbv iota.
  rewrite (Z.min_l 0) by lia. rewrite Z.sub_0_r. change (Z.to_nat 0) with 0%nat.
  rewrite drop_0.
  destruct (Z.le_ge_cases n (Z.of_nat (length data))).
  - rewrite Z.min_l, Z.max_l by lia. reflexivity.
  - rewrite Z.min_r, Z.max_l by lia. rewrite Nat2Z.id.
    rewrite !take_ge by lia. reflexivity.
Qed.

(** A row of 16 bytes that begins inside the buffer. *)
Lemma slice_row (data : list byte) (i : nat) :
  (16 * i <= length data)%nat ->
  ArrayBuffer_slice data (Z.of_nat i * 16) ((Z.of_nat i + 1) * 16)
  = take 16 (drop (16 * i) data).
Proof.
  intros Hi. unfold ArrayBuffer_slice, data_length.
  replace (Z.of_nat i * 16 <? 0) with false by lia.
  replace ((Z.of_nat i + 1) * 16 <? 0) with false by lia.
  rewrite (Z.min_l (Z.of_nat i * 16)) by lia.
  replace (Z.to_nat (Z.of_nat i * 16)) with (16 * i)%nat by lia.
  destruct (Z.le_ge_cases ((Z.of_nat i + 1) * 16) (Z.of_nat (length data))).
  - rewrite Z.min_l, Z.max_l by lia. f_equal. lia.
  - rewrite Z.min_r, Z.max_l by lia.
    rewrite !take_ge; [reflexivity | rewrite length_drop; lia | rewrite length_drop; lia].
Qed.

Lemma rows_concat (data : list byte) (k : nat) :
  (16 * k < length data + 16)%nat ->
  concat (map (fun i => take 16 (drop (16 * i) data)) (seq 0 k))
  = take (16 * k) data.
Proof.
  induction k as [|k IH]; intros Hk; [reflexivity|].
  rewrite seq_S, map_app, concat_app, IH by lia. cbn [map concat Nat.add].
  rewrite app_nil_r, take_take_drop. f_equal. lia.
Qed.

Context {num : Type} {number : JsNumber num}.

(** The analysis shows the first 1024 bytes and lists the strings of
    the first 51200 bytes: what follows them in the file changes neither
    (it does count for the entropy, which is the one of the whole
    buffer). *)
Theorem views_windows (arrayBuffer : list byte) :
  App.firstBytes (App.views arrayBuffer) = take (Z.to_nat 1024) arrayBuffer
  /\ App.strings (App.views arrayBuffer)
     = extractStrings_default (take (Z.to_nat 51200) arrayBuffer)
  /\ App.entropy (App.views arrayBuffer) = getEntropy arrayBuffer
  /\ (forall rest : list byte,
        data_length arrayBuffer = 51200 ->
        App.strings (App.views (arrayBuffer ++ rest))
        = extractStrings_default arrayBuffer)
  /\ (forall rest : list byte,
        data_length arrayBuffer = 1024 ->
        App.firstBytes (App.views (arrayBuffer ++ rest)) = arrayBuffer).
Proof.
  unfold App.views. cbn [App.firstBytes App.strings App.entropy].
  rewrite !slice_prefix by lia. change (50 * 1024) with 51200.
  repeat split.
  - intros rest Hlen. rewrite slice_prefix by lia. change (50 * 1024) with 51200.
    unfold data_length in Hlen.
    replace (Z.to_nat 51200) with (length arrayBuffer) by lia.
    now rewrite take_app_length.
  - intros rest Hlen. rewrite slice_prefix by lia.
    unfold data_length in Hlen.
    replace (Z.to_nat 1024) with (length arrayBuffer) by lia.
    now rewrite take_app_length.
Qed.

End Views.

Section HexView.
Import FileDetail.

Lemma row_count_nat (firstBytes : list byte) :
  Z.to_nat (row_count firstBytes) = ((length firstBytes + 15) / 16)%nat.
Proof.
  unfold row_count, data_length.
  rewrite Z2Nat.inj_div by lia. f_equal. lia.
Qed.

Lemma hex_cell_digits (b : byte) :
  String.length (hex_cell b) = 2%nat
  /\ hex_cell b
     = toUpperCase (String (hex_digit (byte_code b / 16))
                      (String (hex_digit (byte_code b mod 16)) EmptyString)).
Proof. destruct b; split; reflexivity. Qed.

Lemma ascii_row_length (chunk : list byte) :
  String.length (ascii_row chunk) = length chunk.
Proof.
  unfold ascii_row, join_strings. induction chunk as [|b chunk IH]; [reflexivity|].
  cbn [map foldr]. rewrite length_append, IH.
  destruct ((32 <=? byte_code b) && (byte_code b <=? 126)); reflexivity.
Qed.

(** The hex view shows every byte of [firstBytes] once and in order:
    its rows, one after the other, are the buffer; there are
    [ceil(length / 16)] of them, each of 1 to 16 bytes; a hex cell has
    two characters and the text of a row one character per byte. *)
Theorem hex_view_rows (firstBytes : list byte) :
  concat (map (row_bytes firstBytes) (row_indices firstBytes)) = firstBytes
  /\ length (hex_view firstBytes) = ((length firstBytes + 15) / 16)%nat
  /\ Forall (fun row => (1 <= length row <= 16)%nat)
       (map (row_bytes firstBytes) (row_indices firstBytes))
  /\ Forall (fun '(label, cells, text) =>
               Forall (fun cell => String.length cell = 2%nat) cells
               /\ String.length text = length cells)
       (hex_view firstBytes).
Proof.
  assert (Hdiv : (16 * ((length firstBytes + 15) / 16) < length firstBytes + 16)%nat).
  { pose proof (Nat.div_mod_eq (length firstBytes + 15) 16).
    pose proof (Nat.mod_upper_bound (length firstBytes + 15) 16). lia. }
  assert (Hrows : map (row_bytes firstBytes) (row_indices firstBytes)
                  = map (fun i => take 16 (drop (16 * i) firstBytes))
                      (seq 0 ((length firstBytes + 15) / 16))).
  { unfold row_indices. rewrite row_count_nat, map_map.
    apply map_ext_in. intros i Hi. apply in_seq in Hi.
    unfold row_bytes. apply slice_row. lia. }
  split; [|split; [|split]].
  - rewrite Hrows, rows_concat by exact Hdiv. apply take_ge. 
    pose proof (Nat.div_mod_eq (length firstBytes + 15) 16).
    pose proof (Nat.mod_upper_bound (length firstBytes + 15) 16). lia.
  - unfold hex_view, row_indices. rewrite !length_map, length_seq.
    apply row_count_nat.
  - rewrite Hrows. apply List.Forall_forall. intros row Hrow.
    apply in_map_iff in Hrow. destruct Hrow as (i & <- & Hi). apply in_seq in Hi.
    rewrite length_take, length_drop. lia.
  - unfold hex_view. apply List.Forall_forall. intros [[label cells] text] Hrow.
    apply in_map_iff in Hrow. destruct Hrow as (i & Heq & _).
    injection Heq as _ <- <-. split.
    + apply List.Forall_forall. intros cell Hcell.
      apply in_map_iff in Hcell. destruct Hcell as (b & <- & _).
      apply hex_cell_digits.
    + now rewrite ascii_row_length, length_map.
Qed.

End HexView.

(** The one-chunk file: the stream of the specification is the
    [IEND] chunk, its length field is 0, and [parsePng] returns it
    within 20 turns. *)
Lemma parsePng_follows_stream_witness :
  chunks <$> parsePng (builtins := Sample.builtins) (exifLib := Sample.exifLib) 20
               (Sample.file "image/png" "a.png"
                  (Sample.iend_png [xae; x42; x60; x82]))
  = Some (Some [{| name := "IEND"; size := 0; offset := 8 |}]).
Proof.
  destruct (parsePng_follows_stream (builtins := Sample.builtins)
              (exifLib := Sample.exifLib)
              (Sample.file "image/png" "a.png"
                 (Sample.iend_png [xae; x42; x60; x82])))
    as (cs & Hcs & H).
  assert (cs = [{| name := "IEND"; size := 0; offset := 8 |}]) as ->.
  { apply (chunk_stream_functional _ _ _ _ Hcs).
    apply (PngSpec.stream_chunk _ 8 0 "IEND" []);
      [simpl; lia | reflexivity | reflexivity |].
    apply PngSpec.stream_end. simpl. lia. }
  apply H. repeat constructor.
Defined.
